(** * The statute parser, renderer and post-processor of [open_ai_indexing.py]

    A shallow embedding of [parse_text], [get_text_from_structure] and the
    module-level truncation rules, over Python strings seen as lists of
    Unicode code points, a small backtracking matcher standing for the
    [re] module, and an explicit store for the dictionaries that the
    parsing loop mutates through its [current_*] references.

    The definitions come first: strings, patterns and the matcher, the
    store and the loop, the renderer and the truncation rules, then the
    tree that the store holds and the notions the statements are written
    with. The facts follow: the matcher finds what the patterns match,
    every turn of the loop keeps the store in step with the tree, and
    from there the properties of parsing, rendering and truncation. *)

From Stdlib Require Import NArith String Ascii.
From stdpp Require Import base option list.

Local Open Scope N_scope.

(** ** Python strings *)

(** A [str] is a sequence of code points. *)
Definition cp := N.
Definition pystr := list cp.

Definition NL : cp := 10.

Definition cont (a : ascii) : N := N_of_ascii a mod 64.

(** Reads a literal of this file (UTF-8 bytes) as the [str] a Python source
    literal with the same text denotes; the two characters backslash, n
    stand for a line break. *)
Fixpoint py (s : string) : pystr :=
  match s with
  | EmptyString => []
  | String a s1 =>
    let b := N_of_ascii a in
    if b =? 92 then
      match s1 with
      | String "n"%char s2 => NL :: py s2
      | _ => b :: py s1
      end
    else if b <? 128 then b :: py s1
    else if b <? 224 then
      match s1 with
      | String a1 s2 => ((b mod 32) * 64 + cont a1) :: py s2
      | _ => []
      end
    else if b <? 240 then
      match s1 with
      | String a1 (String a2 s3) =>
        ((b mod 16) * 4096 + cont a1 * 64 + cont a2) :: py s3
      | _ => []
      end
    else
      match s1 with
      | String a1 (String a2 (String a3 s4)) =>
        ((b mod 8) * 262144 + cont a1 * 4096 + cont a2 * 64 + cont a3) :: py s4
      | _ => []
      end
  end.

(** [str.isspace] on one code point, which is also what [\s] matches in a
    [str] pattern. *)
Definition isspace (c : cp) : bool :=
  ((9 <=? c) && (c <=? 13)) || ((28 <=? c) && (c <=? 32))
  || (c =? 133) || (c =? 160) || (c =? 5760)
  || ((8192 <=? c) && (c <=? 8202))
  || (c =? 8232) || (c =? 8233) || (c =? 8239) || (c =? 8287) || (c =? 12288).

(** The code points of digit value zero of every decimal-digit block
    (general category Nd, Unicode 14.0); each block is ten consecutive
    code points. *)
Definition decimal_zeros : list cp :=
  [ 48; 1632; 1776; 1984; 2406; 2534; 2662; 2790; 2918; 3046; 3174; 3302;
    3430; 3558; 3664; 3792; 3872; 4160; 4240; 6112; 6160; 6470; 6608; 6784;
    6800; 6992; 7088; 7232; 7248; 42528; 43216; 43264; 43472; 43504; 43600;
    44016; 65296; 66720; 68912; 69734; 69872; 69942; 70096; 70384; 70736;
    70864; 71248; 71360; 71472; 71904; 72016; 72784; 73040; 73120; 92768;
    92864; 93008; 120782; 120792; 120802; 120812; 120822; 123200; 123632;
    125264; 130032 ].

(** What [\d] matches in a [str] pattern. *)
Definition isdecimal (c : cp) : bool :=
  existsb (fun z => (z <=? c) && (c <? z + 10)) decimal_zeros.

(** The simple lower-case mapping, on the code points that lower to a
    character of one of the patterns below; every other code point is left
    as it is, which changes no match: only the inverse images of pattern
    characters are ever compared. *)
Definition unicode_tolower (c : cp) : cp :=
  if (65 <=? c) && (c <=? 90) then c + 32
  else if c =? 272 then 273        (* D with stroke *)
  else if c =? 304 then 105        (* I with dot above *)
  else if c =? 416 then 417        (* O with horn *)
  else if c =? 431 then 432        (* U with horn *)
  else if c =? 7872 then 7873      (* E with circumflex and grave *)
  else if c =? 8490 then 107       (* Kelvin sign *)
  else c.

(** The further code points the [re] module takes as equal to a lower-case
    letter when IGNORECASE is set. *)
Definition extra_cases (lo : cp) : list cp :=
  if lo =? 105 then [305]          (* i, dotless i *)
  else if lo =? 115 then [383]     (* s, long s *)
  else [].

Fixpoint lstrip_by (p : cp -> bool) (s : pystr) : pystr :=
  match s with
  | c :: s' => if p c then lstrip_by p s' else s
  | [] => []
  end.

Definition rstrip_by (p : cp -> bool) (s : pystr) : pystr :=
  rev (lstrip_by p (rev s)).

Definition strip_by (p : cp -> bool) (s : pystr) : pystr :=
  rstrip_by p (lstrip_by p s).

(** [s.strip()] *)
Definition strip (s : pystr) : pystr := strip_by isspace s.

Definition one_of (chars : pystr) (c : cp) : bool := existsb (N.eqb c) chars.

(** [s.strip(chars)] *)
Definition strip_chars (chars : pystr) (s : pystr) : pystr :=
  strip_by (one_of chars) s.

(** [s.split(sep)] for a separator of one code point. *)
Fixpoint split (sep : cp) (s : pystr) : list pystr :=
  match s with
  | [] => [[]]
  | c :: s' =>
    if c =? sep then [] :: split sep s'
    else match split sep s' with
         | l :: ls => (c :: l) :: ls
         | [] => [[c]]
         end
  end.

Fixpoint starts_with (p s : pystr) : bool :=
  match p, s with
  | [], _ => true
  | a :: p', b :: s' => (a =? b) && starts_with p' s'
  | _ :: _, [] => false
  end.

(** [s.replace(old, new)] for a non-empty [old]: occurrences are replaced
    from the left and do not overlap; [skip] counts the code points of an
    occurrence still to be dropped. *)
Fixpoint replace_from (old new : pystr) (skip : nat) (s : pystr) : pystr :=
  match s with
  | [] => []
  | c :: s' =>
    match skip with
    | S n => replace_from old new n s'
    | O =>
      if starts_with old s
      then new ++ replace_from old new (Nat.pred (length old)) s'
      else c :: replace_from old new O s'
    end
  end.

Definition replace (old new s : pystr) : pystr := replace_from old new O s.

(** ** Regular expressions *)

(** The fragment of the [re] syntax that the patterns of the program use.
    A repetition is over one character class; [Opt] is the greedy [?]. *)
Inductive regex :=
| Bos                                   (* ^ *)
| Eos                                   (* $ without MULTILINE *)
| Chr (p : cp -> bool)                  (* a literal or a class *)
| Star (p : cp -> bool)                 (* class* *)
| Plus (p : cp -> bool)                 (* class+ *)
| PlusLazy (p : cp -> bool)             (* class+? *)
| Opt (r : regex)                       (* r? *)
| Cat (r1 r2 : regex)
| Alt (r1 r2 : regex)                   (* r1|r2 *)
| Grp (n : nat) (r : regex).            (* capturing group number n *)

Definition captures := list (nat * (nat * nat)).

(** A match: where it ends and the spans of its groups. *)
Record rmatch := RMatch { m_end : nat; m_groups : captures }.

Definition kont := nat -> pystr -> captures -> option rmatch.

Definition orelse {A} (a b : option A) : option A :=
  match a with Some _ => a | None => b end.

(** Greedy repetition: as many as possible first, one fewer on failure. *)
Fixpoint star (p : cp -> bool) (k : kont) (pos : nat) (s : pystr)
    (c : captures) : option rmatch :=
  match s with
  | x :: s' => if p x then orelse (star p k (S pos) s' c) (k pos s c)
               else k pos s c
  | [] => k pos s c
  end.

(** Lazy repetition: as few as possible first, one more on failure. *)
Fixpoint star_lazy (p : cp -> bool) (k : kont) (pos : nat) (s : pystr)
    (c : captures) : option rmatch :=
  orelse (k pos s c)
    match s with
    | x :: s' => if p x then star_lazy p k (S pos) s' c else None
    | [] => None
    end.

Definition one (p : cp -> bool) (k : kont) : kont := fun pos s c =>
  match s with
  | x :: s' => if p x then k (S pos) s' c else None
  | [] => None
  end.

(** The backtracking matcher, in continuation-passing style: [k] is the
    rest of the pattern, [pos] the offset of [s] in the subject. *)
Fixpoint run (r : regex) (k : kont) (pos : nat) (s : pystr) (c : captures)
    : option rmatch :=
  match r with
  | Bos => if Nat.eqb pos 0 then k pos s c else None
  | Eos => match s with
           | [] => k pos s c
           | [x] => if x =? NL then k pos s c else None
           | _ => None
           end
  | Chr p => one p k pos s c
  | Star p => star p k pos s c
  | Plus p => one p (star p k) pos s c
  | PlusLazy p => one p (star_lazy p k) pos s c
  | Opt r1 => orelse (run r1 k pos s c) (k pos s c)
  | Cat r1 r2 => run r1 (run r2 k) pos s c
  | Alt r1 r2 => orelse (run r1 k pos s c) (run r2 k pos s c)
  | Grp n r1 => run r1 (fun pos' s' c' => k pos' s' ((n, (pos, pos')) :: c')) pos s c
  end.

Definition accept : kont := fun pos _ c => Some (RMatch pos c).

(** [pattern.match(s)] *)
Definition re_match (r : regex) (s : pystr) : option rmatch :=
  run r accept 0 s [].

(** The first match starting at [pos] or later, as [(start, match)]. *)
Fixpoint search_from (r : regex) (pos : nat) (s : pystr)
    : option (nat * rmatch) :=
  match run r accept pos s [] with
  | Some m => Some (pos, m)
  | None => match s with
            | [] => None
            | _ :: s' => search_from r (S pos) s'
            end
  end.

(** [re.search(pattern, s)] *)
Definition re_search (r : regex) (s : pystr) : option (nat * rmatch) :=
  search_from r 0 s.

(** [re.sub(pattern, repl, s)] for a replacement without references:
    every match is replaced, from the left, the search going on where the
    last match ended; [skip] counts the code points of a match still to be
    dropped. *)
Fixpoint sub_from (r : regex) (repl : pystr) (pos : nat) (skip : nat)
    (s : pystr) : pystr :=
  match skip with
  | S n => match s with
           | _ :: s' => sub_from r repl (S pos) n s'
           | [] => []
           end
  | O =>
    match run r accept pos s [] with
    | Some m =>
      repl ++ match s with
              | x :: s' =>
                if Nat.eqb (m_end m) pos then x :: sub_from r repl (S pos) O s'
                else sub_from r repl (S pos) (m_end m - S pos) s'
              | [] => []
              end
    | None => match s with
              | x :: s' => x :: sub_from r repl (S pos) O s'
              | [] => []
              end
    end
  end.

Definition re_sub (r : regex) (repl s : pystr) : pystr := sub_from r repl 0 O s.

(** [m.group(n)] on the subject [s]; the groups asked for below take part
    in every match of their pattern. *)
Definition group (s : pystr) (m : rmatch) (n : nat) : pystr :=
  match List.find (fun g => Nat.eqb (fst g) n) (m_groups m) with
  | Some (_, (a, b)) => take (b - a)%nat (drop a s)
  | None => []
  end.

(** *** Character classes *)

Definition lit (x : cp) : cp -> bool := N.eqb x.
Definition range (lo hi : cp) : cp -> bool := fun c => (lo <=? c) && (c <=? hi).
Definition dot : cp -> bool := fun c => negb (c =? NL).       (* . *)
Definition dot_all : cp -> bool := fun _ => true.             (* . with DOTALL *)

(** A literal under IGNORECASE: the subject's code point is lowered and
    compared with the lowered literal and its extra cases. *)
Definition lit_i (x : cp) : cp -> bool := fun c =>
  let lo := unicode_tolower x in
  let c' := unicode_tolower c in
  (c' =? lo) || existsb (N.eqb c') (extra_cases lo).

Fixpoint codes (lo : cp) (n : nat) : list cp :=
  match n with O => [] | S n' => lo :: codes (lo + 1) n' end.

(** A class under IGNORECASE matches what one of its members matches. *)
Definition class_i (members : list cp) : cp -> bool := fun c =>
  existsb (fun x => lit_i x c) members.

(** The pattern of the empty string. *)
Definition empty : regex := Star (fun _ => false).

(** A run of literals, and the same under IGNORECASE. *)
Fixpoint str (s : pystr) : regex :=
  match s with
  | [] => empty
  | [x] => Chr (lit x)
  | x :: s' => Cat (Chr (lit x)) (str s')
  end.

Fixpoint str_i (s : pystr) : regex :=
  match s with
  | [] => empty
  | [x] => Chr (lit_i x)
  | x :: s' => Cat (Chr (lit_i x)) (str_i s')
  end.

Declare Scope re_scope.
Delimit Scope re_scope with re.
Infix "·" := Cat (at level 41, right associativity) : re_scope.
Local Open Scope re_scope.

(** *** The patterns of the program *)

Definition a_z : list cp := codes 97 26.
Definition A_Z : list cp := codes 65 26.
Definition d_stroke : cp := 273.
Definition D_stroke : cp := 272.

(** The pattern "^Chương\s+([IVXLCDM]+|\d+)" with IGNORECASE. *)
Definition CHUONG_PATTERN : regex :=
  Bos · str_i (py "Chương") · Plus isspace
      · Grp 1 (Alt (Plus (class_i (py "IVXLCDM"))) (Plus isdecimal)).

(** The pattern "^Điều\s+(\d+[a-zđ]?)" with IGNORECASE. *)
Definition DIEU_PATTERN : regex :=
  Bos · str_i (py "Điều") · Plus isspace
      · Grp 1 (Plus isdecimal · Opt (Chr (class_i (a_z ++ [d_stroke])))).

(** The pattern "^(\d+)\.\s*(.* )", without the space before the last
    parenthesis. *)
Definition KHOAN_PATTERN : regex :=
  Bos · Grp 1 (Plus isdecimal) · Chr (lit 46) · Star isspace · Grp 2 (Star dot).

(** The pattern "^([a-zđA-ZĐ])\)\s*(.* )", without the space before the
    last parenthesis. *)
Definition MUC_PATTERN : regex :=
  Bos · Grp 1 (Chr (one_of (a_z ++ [d_stroke] ++ A_Z ++ [D_stroke])))
      · Chr (lit 41) · Star isspace · Grp 2 (Star dot).

(** The pattern "Mục [0-9]+[a-zđ]?. " of the first search. *)
Definition SECTION_MARK : regex :=
  str (py "Mục ") · Plus (range 48 57) · Opt (Chr (one_of (a_z ++ [d_stroke])))
      · Chr dot · Chr (lit 32).

(** The pattern "Mục [0-9]+[a-zđ]?. .+?$" of the first substitution. *)
Definition SECTION_TAIL : regex := SECTION_MARK · PlusLazy dot · Eos.

(** The pattern "Luật này (đã )?được Quốc hội" of the second search. *)
Definition ENACT_MARK : regex :=
  str (py "Luật này ") · Opt (Grp 1 (str (py "đã "))) · str (py "được Quốc hội").

(** The pattern "Luật này (đã )?được Quốc hội.+?$" with DOTALL. *)
Definition ENACT_TAIL : regex := ENACT_MARK · PlusLazy dot_all · Eos.

(** *** What a pattern matches *)

(** [lang r pos w rest]: the pattern [r] can match the code points [w]
    at offset [pos] of the subject, [rest] being what follows them. *)
Fixpoint lang (r : regex) (pos : nat) (w rest : pystr) : Prop :=
  match r with
  | Bos => w = [] /\ pos = O
  | Eos => w = [] /\ (rest = [] \/ rest = [NL])
  | Chr p => exists x, w = [x] /\ p x = true
  | Star p => Forall (fun x => p x = true) w
  | Plus p | PlusLazy p => w <> [] /\ Forall (fun x => p x = true) w
  | Opt r1 => w = [] \/ lang r1 pos w rest
  | Cat r1 r2 =>
    exists w1 w2, w = w1 ++ w2 /\ lang r1 pos w1 (w2 ++ rest)
                  /\ lang r2 (pos + length w1) w2 rest
  | Alt r1 r2 => lang r1 pos w rest \/ lang r2 pos w rest
  | Grp _ r1 => lang r1 pos w rest
  end.

(** The pattern [r] has an occurrence in [s] that starts at offset [i]. *)
Definition occurs_at (r : regex) (s : pystr) (i : nat) : Prop :=
  exists w rest, drop i s = w ++ rest /\ (i <= length s)%nat /\ lang r i w rest.

Definition occurs (r : regex) (s : pystr) : Prop := exists i, occurs_at r s i.

(** No class of the pattern has the code point [x]. *)
Fixpoint excludes (x : cp) (r : regex) : Prop :=
  match r with
  | Bos | Eos => True
  | Chr p | Star p | Plus p | PlusLazy p => p x = false
  | Opt r1 | Grp _ r1 => excludes x r1
  | Cat r1 r2 | Alt r1 r2 => excludes x r1 /\ excludes x r2
  end.

(** ** The dictionaries of [parse_text] and their store *)

(** A reference to a dictionary of the store. *)
Abbreviation ref := nat.

(** The five shapes of dictionary the parser builds, by their keys. A list
    under a key holds references: the dictionary appended to a list is
    the one the [current_*] variable goes on mutating. *)
Inductive obj :=
| DPreamble (Preamble : pystr)
| DChuong (Chuong : pystr) (Dieu : list ref) (Content : option pystr)
| DDieu (Dieu : pystr) (Content : pystr) (Khoan : list ref)
| DKhoan (Khoan : pystr) (Content : pystr) (Muc : list ref)
| DMuc (Muc : pystr) (Content : pystr).

(** What a step can raise. [Unmodelled] stands for a reference outside the
    store or a dictionary shape the model has no constructor for. *)
Inductive exn := KeyError | IndexError | Unmodelled.

Inductive res (A : Type) :=
| Ok (a : A)
| Raise (e : exn).
Arguments Ok {A} a.
Arguments Raise {A} e.

Definition bind {A B} (m : res A) (f : A -> res B) : res B :=
  match m with Ok a => f a | Raise e => Raise e end.

Notation "'do' x <- m ; f" := (bind m (fun x => f))
  (at level 10, x name, m at level 100, f at level 200).

(** The local variables of [parse_text] and the store they point into. *)
Record state := State {
  heap : list obj;
  hierarchy : list ref;
  current_chuong : option ref;
  current_dieu : option ref;
  current_khoan : option ref;
  current_muc : option ref }.

Definition initial : state := State [] [] None None None None.

Definition deref (h : list obj) (r : ref) : res obj :=
  match h !! r with Some o => Ok o | None => Raise Unmodelled end.

(** A dictionary display: the new dictionary gets the next reference. *)
Definition new (o : obj) (h : list obj) : ref * list obj :=
  (length h, h ++ [o]).

(** [d[key].append(x)] for the three list-valued keys. *)
Definition append_Dieu (c x : ref) (h : list obj) : res (list obj) :=
  do o <- deref h c ;
  match o with
  | DChuong t ds ct => Ok (<[c := DChuong t (ds ++ [x]) ct]> h)
  | _ => Raise KeyError
  end.

Definition append_Khoan (d x : ref) (h : list obj) : res (list obj) :=
  do o <- deref h d ;
  match o with
  | DDieu l ct ks => Ok (<[d := DDieu l ct (ks ++ [x])]> h)
  | _ => Raise KeyError
  end.

Definition append_Muc (k x : ref) (h : list obj) : res (list obj) :=
  do o <- deref h k ;
  match o with
  | DKhoan l ct ms => Ok (<[k := DKhoan l ct (ms ++ [x])]> h)
  | _ => Raise KeyError
  end.

(** [d["Content"] += text] *)
Definition iadd_Content (r : ref) (text : pystr) (h : list obj)
    : res (list obj) :=
  do o <- deref h r ;
  match o with
  | DMuc l ct => Ok (<[r := DMuc l (ct ++ text)]> h)
  | DKhoan l ct ms => Ok (<[r := DKhoan l (ct ++ text) ms]> h)
  | DDieu l ct ks => Ok (<[r := DDieu l (ct ++ text) ks]> h)
  | DChuong t ds (Some ct) => Ok (<[r := DChuong t ds (Some (ct ++ text))]> h)
  | DChuong _ _ None | DPreamble _ => Raise KeyError
  end.

(** [d["Content"] = d.get("Content", "") + text] *)
Definition set_Content_from_get (r : ref) (text : pystr) (h : list obj)
    : res (list obj) :=
  do o <- deref h r ;
  match o with
  | DChuong t ds ct => Ok (<[r := DChuong t ds (Some (default [] ct ++ text))]> h)
  | DDieu l ct ks => Ok (<[r := DDieu l (ct ++ text) ks]> h)
  | DKhoan l ct ms => Ok (<[r := DKhoan l (ct ++ text) ms]> h)
  | DMuc l ct => Ok (<[r := DMuc l (ct ++ text)]> h)
  | DPreamble _ => Raise Unmodelled
  end.

(** [d["Preamble"] += text] *)
Definition iadd_Preamble (r : ref) (text : pystr) (h : list obj)
    : res (list obj) :=
  do o <- deref h r ;
  match o with
  | DPreamble p => Ok (<[r := DPreamble (p ++ text)]> h)
  | _ => Raise KeyError
  end.

(** [s in l] for a [str] and a list of dictionaries: membership compares
    with [==], and a [str] is never equal to a [dict]. *)
Definition str_eq_dict (s : pystr) (r : ref) : bool := false.

Definition str_in (s : pystr) (l : list ref) : bool := existsb (str_eq_dict s) l.

(** Lines 79 to 95: the line is part of the current content. The tests
    are on the truth value of the [current_*] variables: [None] is false,
    a dictionary with a key is true. *)
Definition plain_content (st : state) (line : pystr) : res state :=
  let text := py " " ++ line in
  let '(State h hi cc cd ck cm) := st in
  match cm, ck, cd, cc with
  | Some m, _, _, _ =>
    do h' <- iadd_Content m text h ; Ok (State h' hi cc cd ck cm)
  | None, Some k, _, _ =>
    do h' <- iadd_Content k text h ; Ok (State h' hi cc cd ck cm)
  | None, None, Some d, _ =>
    do h' <- iadd_Content d text h ; Ok (State h' hi cc cd ck cm)
  | None, None, None, Some c =>
    do h' <- set_Content_from_get c text h ; Ok (State h' hi cc cd ck cm)
  | None, None, None, None =>
    if negb (str_in (py "Preamble") hi) then
      let '(p, h') := new (DPreamble line) h in
      Ok (State h' (hi ++ [p]) cc cd ck cm)
    else
      match last hi with
      | None => Raise IndexError
      | Some p => do h' <- iadd_Preamble p text h ; Ok (State h' hi cc cd ck cm)
      end
  end.

(** Lines 53 to 77: the clause and point checks, each guarded by its open
    parent, then the fallback. *)
Definition khoan_muc_or_plain (st : state) (line : pystr) : res state :=
  let '(State h hi cc cd ck cm) := st in
  match re_match KHOAN_PATTERN line, cd with
  | Some m, Some d =>
    let khoan_number := group line m 1 in
    let khoan_content := group line m 2 in
    let '(k, h1) := new (DKhoan (py "Khoan " ++ khoan_number) khoan_content []) h in
    do h2 <- append_Khoan d k h1 ;
    Ok (State h2 hi cc cd (Some k) None)
  | _, _ =>
    match re_match MUC_PATTERN line, ck with
    | Some m, Some k =>
      let muc_letter := group line m 1 in
      let muc_content := group line m 2 in
      let '(x, h1) := new (DMuc (py "Muc " ++ muc_letter) muc_content) h in
      do h2 <- append_Muc k x h1 ;
      Ok (State h2 hi cc cd ck (Some x))
    | _, _ => plain_content st line
    end
  end.

(** The inline content of an article header: line 38. *)
Definition dieu_content_of (line : pystr) (m : rmatch) : pystr :=
  strip (strip_chars (py ". ") (drop (m_end m) line)).

(** One turn of the loop of [parse_text] on one element of the split. *)
Definition step (st : state) (raw : pystr) : res state :=
  let line := strip raw in
  if bool_decide (line = []) then Ok st
  else
    let '(State h hi cc cd ck cm) := st in
    match re_match CHUONG_PATTERN line with
    | Some _ =>
      let chuong_title := line in
      let '(c, h1) := new (DChuong chuong_title [] None) h in
      Ok (State h1 (hi ++ [c]) (Some c) None None None)
    | None =>
      match re_match DIEU_PATTERN line with
      | Some m =>
        let dieu_number := group line m 1 in
        let dieu_content := dieu_content_of line m in
        let '(d, h1) := new (DDieu (py "Dieu " ++ dieu_number) dieu_content []) h in
        let '(c, h2, hi2) :=
          match cc with
          | None =>
            let '(c, h2) := new (DChuong (py "Chuong 0") [] None) h1 in
            (c, h2, hi ++ [c])
          | Some c => (c, h1, hi)
          end in
        do h3 <- append_Dieu c d h2 ;
        Ok (State h3 hi2 (Some c) (Some d) None None)
      | None => khoan_muc_or_plain st line
      end
    end.

(** The loop over [text.split("\n")]. *)
Fixpoint steps (st : state) (lines : list pystr) : res state :=
  match lines with
  | [] => Ok st
  | l :: ls => do st' <- step st l ; steps st' ls
  end.

(** *** The value returned *)

(** The nested dictionaries and lists reachable from [hierarchy], read as
    a value. *)
Record muc := Muc { muc_Muc : pystr; muc_Content : pystr }.
Record khoan := Khoan {
  khoan_Khoan : pystr; khoan_Content : pystr; khoan_Muc : list muc }.
Record dieu := Dieu {
  dieu_Dieu : pystr; dieu_Content : pystr; dieu_Khoan : list khoan }.
Inductive element :=
| EPreamble (Preamble : pystr)
| EChuong (Chuong : pystr) (Dieu : list dieu) (Content : option pystr).

Fixpoint traverse {A B} (f : A -> res B) (l : list A) : res (list B) :=
  match l with
  | [] => Ok []
  | a :: l' => do b <- f a ; do bs <- traverse f l' ; Ok (b :: bs)
  end.

Definition read_muc (h : list obj) (r : ref) : res muc :=
  do o <- deref h r ;
  match o with DMuc l ct => Ok (Muc l ct) | _ => Raise KeyError end.

Definition read_khoan (h : list obj) (r : ref) : res khoan :=
  do o <- deref h r ;
  match o with
  | DKhoan l ct ms => do ms' <- traverse (read_muc h) ms ; Ok (Khoan l ct ms')
  | _ => Raise KeyError
  end.

Definition read_dieu (h : list obj) (r : ref) : res dieu :=
  do o <- deref h r ;
  match o with
  | DDieu l ct ks => do ks' <- traverse (read_khoan h) ks ; Ok (Dieu l ct ks')
  | _ => Raise KeyError
  end.

Definition read_element (h : list obj) (r : ref) : res element :=
  do o <- deref h r ;
  match o with
  | DPreamble p => Ok (EPreamble p)
  | DChuong t ds ct => do ds' <- traverse (read_dieu h) ds ; Ok (EChuong t ds' ct)
  | _ => Raise KeyError
  end.

Definition read_hierarchy (st : state) : res (list element) :=
  traverse (read_element (heap st)) (hierarchy st).

(** [parse_text(text)] *)
Definition parse_text (text : pystr) : res (list element) :=
  do st <- steps initial (split NL text) ;
  read_hierarchy st.

(** ** The renderer *)

(** The body of the loop over the points of one clause. *)
Definition render_muc (item_annotation item_prefix : pystr) (content : pystr)
    (m : muc) : pystr :=
  content ++ replace (py "Muc ") item_annotation (muc_Muc m)
          ++ py ") " ++ item_prefix ++ muc_Content m ++ [NL].

(** The body of the loop over the clauses; the pair is [content] and
    [item_prefix], which a turn with [kdm] unset leaves as it was. *)
Definition render_khoan (kdm : bool) (clause_annotation item_annotation
    clause_prefix : pystr) (acc : pystr * pystr) (k : khoan) : pystr * pystr :=
  let '(content, item_prefix) := acc in
  let label := replace (py "Khoan ") clause_annotation (khoan_Khoan k) in
  let content := content ++ label ++ py ". " ++ clause_prefix
                         ++ khoan_Content k ++ [NL] in
  let item_prefix :=
    if kdm then label ++ py " " ++ clause_prefix ++ py " " else item_prefix in
  let content :=
    if Nat.ltb 0 (length (khoan_Muc k))
    then foldl (render_muc item_annotation item_prefix) content (khoan_Muc k)
    else content in
  (content, item_prefix).

(** [get_text_from_structure(dieu, kdm)] *)
Definition get_text_from_structure (d : dieu) (kdm : bool) : pystr :=
  let head := replace (py "Dieu") (py "Điều") (dieu_Dieu d) in
  let head := head ++ py ". " ++ dieu_Content d ++ [NL] in
  let content := head in
  let clause_annotation := if kdm then py "Khoản " else [] in
  let item_annotation := if kdm then py "Điểm " else [] in
  let clause_prefix :=
    if kdm then replace (py "Dieu") (py "Điều") (dieu_Dieu d) ++ py " " else [] in
  let item_prefix : pystr := [] in
  fst (foldl (render_khoan kdm clause_annotation item_annotation clause_prefix)
             (content, item_prefix) (dieu_Khoan d)).

(** ** The truncation rules: lines 143 to 152 *)

Definition cut_section (content : pystr) : pystr :=
  match re_search SECTION_MARK content with
  | Some _ => re_sub SECTION_TAIL [] content
  | None => content
  end.

Definition cut_enactment (content : pystr) : pystr :=
  match re_search ENACT_MARK content with
  | Some _ => re_sub ENACT_TAIL [] content
  | None => content
  end.

Definition postprocess (content : pystr) : pystr :=
  cut_enactment (cut_section content).

(** The [content] field of the record built for one article. *)
Definition article_content (d : dieu) : pystr :=
  postprocess (get_text_from_structure d false).

(** ** The tree held by the store, as the loop sees it *)

(** Every node with its reference, the children of a node most recent
    first: the dictionaries the [current_*] variables point to are then
    the heads, from the last element of [hierarchy] down. *)
Record gmuc := GMuc { gm_ref : ref; gm_Muc : pystr; gm_Content : pystr }.
Record gkhoan := GKhoan {
  gk_ref : ref; gk_Khoan : pystr; gk_Content : pystr; gk_Muc : list gmuc }.
Record gdieu := GDieu {
  gd_ref : ref; gd_Dieu : pystr; gd_Content : pystr; gd_Khoan : list gkhoan }.
Inductive groot :=
| GPreamble (r : ref) (text : pystr)
| GChuong (r : ref) (title : pystr) (ds : list gdieu) (ct : option pystr).

Definition groot_ref (g : groot) : ref :=
  match g with GPreamble r _ => r | GChuong r _ _ _ => r end.

(** The dictionary a node stands for. *)
Definition gm_obj (m : gmuc) : obj := DMuc (gm_Muc m) (gm_Content m).
Definition gk_obj (k : gkhoan) : obj :=
  DKhoan (gk_Khoan k) (gk_Content k) (rev (map gm_ref (gk_Muc k))).
Definition gd_obj (d : gdieu) : obj :=
  DDieu (gd_Dieu d) (gd_Content d) (rev (map gk_ref (gd_Khoan d))).
Definition groot_obj (g : groot) : obj :=
  match g with
  | GPreamble _ p => DPreamble p
  | GChuong _ t ds ct => DChuong t (rev (map gd_ref ds)) ct
  end.

(** The cells of the store a tree occupies. *)
Definition cells_muc (m : gmuc) : list (ref * obj) := [(gm_ref m, gm_obj m)].
Definition cells_khoan (k : gkhoan) : list (ref * obj) :=
  (gk_ref k, gk_obj k) :: flat_map cells_muc (gk_Muc k).
Definition cells_dieu (d : gdieu) : list (ref * obj) :=
  (gd_ref d, gd_obj d) :: flat_map cells_khoan (gd_Khoan d).
Definition cells_root (g : groot) : list (ref * obj) :=
  (groot_ref g, groot_obj g) ::
  match g with
  | GPreamble _ _ => []
  | GChuong _ _ ds _ => flat_map cells_dieu ds
  end.
Definition cells (G : list groot) : list (ref * obj) := flat_map cells_root G.

(** The value the tree reads as. *)
Definition value_muc (m : gmuc) : muc := Muc (gm_Muc m) (gm_Content m).
Definition value_khoan (k : gkhoan) : khoan :=
  Khoan (gk_Khoan k) (gk_Content k) (rev (map value_muc (gk_Muc k))).
Definition value_dieu (d : gdieu) : dieu :=
  Dieu (gd_Dieu d) (gd_Content d) (rev (map value_khoan (gd_Khoan d))).
Definition value_root (g : groot) : element :=
  match g with
  | GPreamble _ p => EPreamble p
  | GChuong _ t ds ct => EChuong t (rev (map value_dieu ds)) ct
  end.
Definition value (G : list groot) : list element := rev (map value_root G).

(** The open nodes. *)
Definition open_dieus (G : list groot) : list gdieu :=
  match G with GChuong _ _ ds _ :: _ => ds | _ => [] end.
Definition open_khoans (G : list groot) : list gkhoan :=
  match open_dieus G with d :: _ => gd_Khoan d | [] => [] end.
Definition open_mucs (G : list groot) : list gmuc :=
  match open_khoans G with k :: _ => gk_Muc k | [] => [] end.

Definition open_chuong (G : list groot) : option ref :=
  match G with GChuong r _ _ _ :: _ => Some r | _ => None end.
Definition open_dieu (G : list groot) : option ref := gd_ref <$> head (open_dieus G).
Definition open_khoan (G : list groot) : option ref := gk_ref <$> head (open_khoans G).
Definition open_muc (G : list groot) : option ref := gm_ref <$> head (open_mucs G).

(** The store has the cells. *)
Definition has (h : list obj) (C : list (ref * obj)) : Prop :=
  forall r o, (r, o) ∈ C -> h !! r = Some o.

(** The store holds the cells, each reference once. *)
Definition holds (h : list obj) (C : list (ref * obj)) : Prop :=
  NoDup C.*1 /\ has h C.

(** The state of the loop stands for the tree [G]. *)
Record stands (st : state) (G : list groot) : Prop := Stands {
  st_hier : hierarchy st = rev (map groot_ref G);
  st_heap : holds (heap st) (cells G);
  st_chuong : current_chuong st = open_chuong G;
  st_dieu : current_dieu st = open_dieu G;
  st_khoan : current_khoan st = open_khoan G;
  st_muc : current_muc st = open_muc G;
  st_size : length (heap st) = length (cells G) }.

(** The next free reference: the store holds the cells of the tree and
    nothing else. *)
Definition fresh (G : list groot) : ref := length (cells G).

(** What one turn of the loop does to the tree. *)
Definition grow_plain (G : list groot) (line : pystr) : list groot :=
  let text := py " " ++ line in
  let n := fresh G in
  match G with
  | GChuong c t (GDieu d l ct (GKhoan k kl kct (GMuc m ml mct :: ms) :: ks) :: ds) cc :: R =>
    GChuong c t (GDieu d l ct (GKhoan k kl kct (GMuc m ml (mct ++ text) :: ms) :: ks) :: ds) cc :: R
  | GChuong c t (GDieu d l ct (GKhoan k kl kct [] :: ks) :: ds) cc :: R =>
    GChuong c t (GDieu d l ct (GKhoan k kl (kct ++ text) [] :: ks) :: ds) cc :: R
  | GChuong c t (GDieu d l ct [] :: ds) cc :: R =>
    GChuong c t (GDieu d l (ct ++ text) [] :: ds) cc :: R
  | GChuong c t [] cc :: R =>
    GChuong c t [] (Some (default [] cc ++ text)) :: R
  | _ => GPreamble n line :: G
  end.

Definition grow_khoan_muc_or_plain (G : list groot) (line : pystr)
    : list groot :=
  let n := fresh G in
  match re_match KHOAN_PATTERN line, G with
  | Some m, GChuong c t (GDieu d l ct ks :: ds) cc :: R =>
    let k := GKhoan n (py "Khoan " ++ group line m 1) (group line m 2) [] in
    GChuong c t (GDieu d l ct (k :: ks) :: ds) cc :: R
  | _, _ =>
    match re_match MUC_PATTERN line, G with
    | Some m, GChuong c t (GDieu d l ct (GKhoan k kl kct ms :: ks) :: ds) cc :: R =>
      let x := GMuc n (py "Muc " ++ group line m 1) (group line m 2) in
      GChuong c t (GDieu d l ct (GKhoan k kl kct (x :: ms) :: ks) :: ds) cc :: R
    | _, _ => grow_plain G line
    end
  end.

Definition grow (G : list groot) (raw : pystr) : list groot :=
  let line := strip raw in
  let n := fresh G in
  if bool_decide (line = []) then G
  else
    match re_match CHUONG_PATTERN line with
    | Some _ => GChuong n line [] None :: G
    | None =>
      match re_match DIEU_PATTERN line with
      | Some m =>
        let d := GDieu n (py "Dieu " ++ group line m 1) (dieu_content_of line m) [] in
        match G with
        | GChuong c t ds cc :: R => GChuong c t (d :: ds) cc :: R
        | _ => GChuong (S n) (py "Chuong 0") [d] None :: G
        end
      | None => grow_khoan_muc_or_plain G line
      end
    end.

(** The tree after the loop has taken the lines in turn. *)
Definition grows (G : list groot) (lines : list pystr) : list groot :=
  foldl grow G lines.

(** ** Header lines and the nodes they make *)

(** The label of a structural node. *)
Inductive header :=
| HChuong (title : pystr)
| HDieu (label : pystr)
| HKhoan (label : pystr)
| HMuc (label : pystr).

(** The nodes of a tree in document order: a chapter, then each of its
    articles followed by its clauses, each followed by its points. *)
Definition headers_khoan (k : khoan) : list header :=
  HKhoan (khoan_Khoan k) :: map (fun m => HMuc (muc_Muc m)) (khoan_Muc k).
Definition headers_dieu (d : dieu) : list header :=
  HDieu (dieu_Dieu d) :: flat_map headers_khoan (dieu_Khoan d).
Definition headers_element (e : element) : list header :=
  match e with
  | EPreamble _ => []
  | EChuong t ds _ => HChuong t :: flat_map headers_dieu ds
  end.
Definition headers (t : list element) : list header := flat_map headers_element t.

(** The classes of a trimmed line as the specification lists them, first
    match first. *)
Inductive line_class :=
| ChapterHeader
| ArticleHeader (number : pystr)
| ClauseHeader (number : pystr)
| PointHeader (letter : pystr)
| Plain.

Definition classify (line : pystr) : line_class :=
  match re_match CHUONG_PATTERN line with
  | Some _ => ChapterHeader
  | None =>
    match re_match DIEU_PATTERN line with
    | Some m => ArticleHeader (group line m 1)
    | None =>
      match re_match KHOAN_PATTERN line with
      | Some m => ClauseHeader (group line m 1)
      | None =>
        match re_match MUC_PATTERN line with
        | Some m => PointHeader (group line m 1)
        | None => Plain
        end
      end
    end
  end.

(** Which levels are open while the lines are read. *)
Record opened := Opened {
  chuong_open : bool; dieu_open : bool; khoan_open : bool }.

(** The header lines of a text as the specification has them, in the
    order of the lines: a line is a header when its class has its parent
    open, and is plain otherwise; an article with no chapter open brings
    the default chapter with it. *)
Definition header_of_line (o : opened) (raw : pystr) : list header * opened :=
  let line := strip raw in
  if bool_decide (line = []) then ([], o)
  else
    match classify line with
    | ChapterHeader => ([HChuong line], Opened true false false)
    | ArticleHeader n =>
      ((if chuong_open o then [] else [HChuong (py "Chuong 0")])
         ++ [HDieu (py "Dieu " ++ n)],
       Opened true true false)
    | ClauseHeader n =>
      if dieu_open o
      then ([HKhoan (py "Khoan " ++ n)], Opened (chuong_open o) true true)
      else ([], o)
    | PointHeader x =>
      if khoan_open o then ([HMuc (py "Muc " ++ x)], o) else ([], o)
    | Plain => ([], o)
    end.

Fixpoint header_lines_from (o : opened) (lines : list pystr) : list header :=
  match lines with
  | [] => []
  | l :: ls =>
    let '(hs, o') := header_of_line o l in hs ++ header_lines_from o' ls
  end.

Definition header_lines (text : pystr) : list header :=
  header_lines_from (Opened false false false) (split NL text).

(** The levels open in a tree. *)
Definition opened_of (G : list groot) : opened :=
  Opened (bool_decide (is_Some (open_chuong G)))
         (bool_decide (is_Some (open_dieu G)))
         (bool_decide (is_Some (open_khoan G))).

(** ** Preambles, chapters and plain lines *)

Definition is_preamble (e : element) : bool :=
  match e with EPreamble _ => true | EChuong _ _ _ => false end.

Definition is_chuong (e : element) : bool :=
  match e with EPreamble _ => false | EChuong _ _ _ => true end.

(** The texts of the Preamble nodes of a root list, in order. *)
Definition preambles (t : list element) : list pystr :=
  flat_map (fun e => match e with EPreamble p => [p] | EChuong _ _ _ => [] end) t.

(** [plain_appended line t t']: [t'] is [t] with the line taken as plain
    content the way the specification words it: a space and the line are
    appended to the content of the innermost open node, the last node of
    [t] in document order, which is the Preamble node while there is no
    chapter; the Preamble node is made, holding the line, when the tree
    has no node yet. *)
Inductive plain_appended (line : pystr) : list element -> list element -> Prop :=
| to_new_preamble :
    plain_appended line [] [EPreamble line]
| to_preamble t p :
    plain_appended line (t ++ [EPreamble p]) (t ++ [EPreamble (p ++ py " " ++ line)])
| to_chuong t title ct :
    plain_appended line
      (t ++ [EChuong title [] ct])
      (t ++ [EChuong title [] (Some (default [] ct ++ py " " ++ line))])
| to_dieu t title ct ds l c :
    plain_appended line
      (t ++ [EChuong title (ds ++ [Dieu l c []]) ct])
      (t ++ [EChuong title (ds ++ [Dieu l (c ++ py " " ++ line) []]) ct])
| to_khoan t title ct ds l c ks kl kc :
    plain_appended line
      (t ++ [EChuong title (ds ++ [Dieu l c (ks ++ [Khoan kl kc []])]) ct])
      (t ++ [EChuong title (ds ++ [Dieu l c (ks ++ [Khoan kl (kc ++ py " " ++ line) []])]) ct])
| to_muc t title ct ds l c ks kl kc ms ml mc :
    plain_appended line
      (t ++ [EChuong title (ds ++ [Dieu l c (ks ++ [Khoan kl kc (ms ++ [Muc ml mc])])]) ct])
      (t ++ [EChuong title
               (ds ++ [Dieu l c (ks ++ [Khoan kl kc (ms ++ [Muc ml (mc ++ py " " ++ line)])])])
               ct]).

(** In a tree kept most recent first, the chapters lie above the
    Preamble nodes. *)
Fixpoint ordered (G : list groot) : bool :=
  match G with
  | [] => true
  | GPreamble _ _ :: R => forallb (fun g => is_preamble (value_root g)) R
  | GChuong _ _ _ _ :: R => ordered R
  end.

(** ** The lines of a rendered article, as the specification writes them *)

Definition article_label (d : dieu) : pystr :=
  replace (py "Dieu") (py "Điều") (dieu_Dieu d).

(** The header line. *)
Definition head_line (d : dieu) : pystr :=
  article_label d ++ py ". " ++ dieu_Content d ++ [NL].

(** With citations expanded: the clause label, the article prefix put
    before the content of a clause, and the prefix put before the content
    of a point, which is the clause label, a space, the article prefix and
    a space. *)
Definition clause_label (k : khoan) : pystr :=
  replace (py "Khoan ") (py "Khoản ") (khoan_Khoan k).
Definition clause_prefix (d : dieu) : pystr := article_label d ++ py " ".
Definition clause_line (d : dieu) (k : khoan) : pystr :=
  clause_label k ++ py ". " ++ clause_prefix d ++ khoan_Content k ++ [NL].
Definition point_label (m : muc) : pystr :=
  replace (py "Muc ") (py "Điểm ") (muc_Muc m).
Definition point_prefix (d : dieu) (k : khoan) : pystr :=
  clause_label k ++ py " " ++ clause_prefix d ++ py " ".
Definition point_line (d : dieu) (k : khoan) (m : muc) : pystr :=
  point_label m ++ py ") " ++ point_prefix d k ++ muc_Content m ++ [NL].

(** The article text with citations expanded, line by line. *)
Definition cited_lines (d : dieu) : pystr :=
  head_line d
  ++ flat_map (fun k => clause_line d k ++ flat_map (point_line d k) (khoan_Muc k))
              (dieu_Khoan d).

(** The inline content of an article header as the specification words
    it: what follows the matched prefix, without its leading dots and
    spaces and without its trailing spaces. *)
Definition spec_dieu_content (line : pystr) (m : rmatch) : pystr :=
  rstrip_by (lit 32) (lstrip_by (one_of (py ". ")) (drop (m_end m) line)).

(** A full stop or a space, the code points of [strip(". ")]. *)
Definition dot_or_space (x : cp) : Prop := x = 46 \/ x = 32.

(** *** The first scenario of the specification *)

Definition scenario_text : pystr := py "Điều 1. Phạm vi\n1. Nội dung A\na) Chi tiết".

Definition scenario_muc : muc := Muc (py "Muc a") (py "Chi tiết").
Definition scenario_khoan : khoan :=
  Khoan (py "Khoan 1") (py "Nội dung A") [scenario_muc].
Definition scenario_dieu : dieu := Dieu (py "Dieu 1") (py "Phạm vi") [scenario_khoan].

(** *** The third scenario of the specification *)


(** A matcher continuation that accepts when exactly [rest] is left. *)
Definition accept_at (rest : pystr) : kont := fun pos s c =>
  if bool_decide (s = rest) then accept pos s c else None.

(** No match of [r] starts at an offset below [n] of [s]. *)
Definition none_before (r : regex) (s : pystr) (n : nat) : bool :=
  forallb (fun j => match run r accept j (drop j s) [] with
                    | None => true
                    | Some _ => false
                    end) (seq 0 n).

(** ** One turn of the loop, branch by branch *)

(** [turn line G G']: with the tree [G], the loop takes the trimmed line
    [line], which is not blank, and leaves the tree [G']. There is one
    rule for each branch of [parse_text]. *)
Inductive turn (line : pystr) : list groot -> list groot -> Prop :=
| turn_chuong G m :
    re_match CHUONG_PATTERN line = Some m ->
    turn line G (GChuong (fresh G) line [] None :: G)
| turn_dieu c t ds cc R m :
    re_match CHUONG_PATTERN line = None ->
    re_match DIEU_PATTERN line = Some m ->
    turn line (GChuong c t ds cc :: R)
      (GChuong c t
         (GDieu (fresh (GChuong c t ds cc :: R)) (py "Dieu " ++ group line m 1)
                (dieu_content_of line m) [] :: ds) cc :: R)
| turn_dieu_default G m :
    re_match CHUONG_PATTERN line = None ->
    re_match DIEU_PATTERN line = Some m ->
    open_chuong G = None ->
    turn line G
      (GChuong (S (fresh G)) (py "Chuong 0")
         [GDieu (fresh G) (py "Dieu " ++ group line m 1) (dieu_content_of line m) []]
         None :: G)
| turn_khoan c t d l ct ks ds cc R m :
    re_match CHUONG_PATTERN line = None ->
    re_match DIEU_PATTERN line = None ->
    re_match KHOAN_PATTERN line = Some m ->
    turn line (GChuong c t (GDieu d l ct ks :: ds) cc :: R)
      (GChuong c t
         (GDieu d l ct
            (GKhoan (fresh (GChuong c t (GDieu d l ct ks :: ds) cc :: R))
                    (py "Khoan " ++ group line m 1) (group line m 2) [] :: ks)
          :: ds) cc :: R)
| turn_muc c t d l ct k kl kct ms ks ds cc R m :
    re_match CHUONG_PATTERN line = None ->
    re_match DIEU_PATTERN line = None ->
    re_match KHOAN_PATTERN line = None ->
    re_match MUC_PATTERN line = Some m ->
    turn line (GChuong c t (GDieu d l ct (GKhoan k kl kct ms :: ks) :: ds) cc :: R)
      (GChuong c t
         (GDieu d l ct
            (GKhoan k kl kct
               (GMuc (fresh (GChuong c t (GDieu d l ct (GKhoan k kl kct ms :: ks) :: ds) cc :: R))
                     (py "Muc " ++ group line m 1) (group line m 2) :: ms)
             :: ks)
          :: ds) cc :: R)
| turn_plain G :
    re_match CHUONG_PATTERN line = None ->
    re_match DIEU_PATTERN line = None ->
    turn line G (grow_plain G line).

(** The lines the loop does not skip, as it sees them. *)
Definition nonblank (lines : list pystr) : list pystr :=
  filter (fun l => l <> []) (map strip lines).

(** ** The strings and the labels of a tree *)

(** Every string a tree holds, labels and contents. *)
Definition strings_muc (m : muc) : list pystr := [muc_Muc m; muc_Content m].
Definition strings_khoan (k : khoan) : list pystr :=
  khoan_Khoan k :: khoan_Content k :: flat_map strings_muc (khoan_Muc k).
Definition strings_dieu (d : dieu) : list pystr :=
  dieu_Dieu d :: dieu_Content d :: flat_map strings_khoan (dieu_Khoan d).
Definition strings_element (e : element) : list pystr :=
  match e with
  | EPreamble p => [p]
  | EChuong t ds ct => t :: option_list ct ++ flat_map strings_dieu ds
  end.
Definition strings (t : list element) : list pystr := flat_map strings_element t.

(** The articles of a tree, chapter by chapter. *)
Definition dieus_of (e : element) : list dieu :=
  match e with EPreamble _ => [] | EChuong _ ds _ => ds end.
Definition dieus (t : list element) : list dieu := flat_map dieus_of t.

(** The titles of the chapters of a tree, in order. *)
Definition chuong_titles (t : list element) : list pystr :=
  flat_map (fun e => match e with EPreamble _ => [] | EChuong c _ _ => [c] end) t.

(** One or more decimal digits. *)
Definition decimals (n : pystr) : Prop :=
  n <> [] /\ Forall (fun x => isdecimal x = true) n.

(** What the first group of the article pattern matches: digits and at
    most one letter of the class, in either case. *)
Definition dieu_number (n : pystr) : Prop :=
  exists ds l, n = ds ++ l /\ decimals ds
    /\ (l = [] \/ exists x, l = [x] /\ class_i (a_z ++ [d_stroke]) x = true).

(** What the first group of the point pattern matches: one letter. *)
Definition muc_letter (n : pystr) : Prop :=
  exists x, n = [x] /\ one_of (a_z ++ [d_stroke] ++ A_Z ++ [D_stroke]) x = true.

(** The labels of an article and of its clauses and points are the key
    word the parser writes, a space, and what the group matched. *)
Definition labelled_muc (m : muc) : Prop :=
  exists x, muc_Muc m = py "Muc " ++ x /\ muc_letter x.
Definition labelled_khoan (k : khoan) : Prop :=
  (exists n, khoan_Khoan k = py "Khoan " ++ n /\ decimals n)
  /\ Forall labelled_muc (khoan_Muc k).
Definition labelled_dieu (d : dieu) : Prop :=
  (exists n, dieu_Dieu d = py "Dieu " ++ n /\ dieu_number n)
  /\ Forall labelled_khoan (dieu_Khoan d).

(** A chapter title taken from a line: the trimmed line, which matches
    the chapter pattern. *)
Definition chuong_line (lines : list pystr) (title : pystr) : Prop :=
  title ∈ map strip lines /\ is_Some (re_match CHUONG_PATTERN title).

(** The numbers of the groups of a pattern. *)
Fixpoint groups_of (r : regex) : list nat :=
  match r with
  | Grp n r1 => n :: groups_of r1
  | Opt r1 => groups_of r1
  | Cat r1 r2 | Alt r1 r2 => groups_of r1 ++ groups_of r2
  | _ => []
  end.

(** The first chapter is the default chapter or comes of a line, the
    others come of lines. *)
Definition chuongs_of_lines (lines : list pystr) (titles : list pystr) : Prop :=
  match titles with
  | [] => True
  | c :: cs => (c = py "Chuong 0" \/ chuong_line lines c) /\ Forall (chuong_line lines) cs
  end.

(** The line break a text ends with, if it ends with one. *)
Definition final_nl (s : pystr) : pystr :=
  match last s with
  | Some x => if x =? NL then [NL] else []
  | None => []
  end.

(** ** The rows read and the records built: lines 100 to 178 *)

(** [sub in s] for two [str]. *)
Fixpoint str_contains (sub s : pystr) : bool :=
  starts_with sub s
  || match s with
     | [] => false
     | _ :: s' => str_contains sub s'
     end.

(** The test of line 104 on the subject of a row, a [str]. *)
Definition kept (subject : pystr) : bool :=
  str_contains (py "mới nhất") subject && negb (str_contains (py "sửa đổi") subject).

(** A [dict] with [str] keys: the keys stand in the order in which they
    were first assigned. *)
Definition dict (V : Type) : Type := list (pystr * V).

(** [d[k] = v] *)
Fixpoint dict_set {V} (k : pystr) (v : V) (d : dict V) : dict V :=
  match d with
  | [] => [(k, v)]
  | (k', v') :: d' =>
    if bool_decide (k' = k) then (k', v) :: d' else (k', v') :: dict_set k v d'
  end.

(** [d[k]] *)
Fixpoint dict_get {V} (k : pystr) (d : dict V) : res V :=
  match d with
  | [] => Raise KeyError
  | (k', v) :: d' => if bool_decide (k' = k) then Ok v else dict_get k d'
  end.

(** Lines 106 to 108: the loop over the rows kept, each a subject and a
    text. *)
Fixpoint load (rows : list (pystr * pystr)) (hs : dict (list element))
    : res (dict (list element)) :=
  match rows with
  | [] => Ok hs
  | (subject, text) :: rows' =>
    do t <- parse_text text ; load rows' (dict_set subject t hs)
  end.

(** Lines 103 to 108, on the rows of the file read. *)
Definition hierarchical_structures (data : list (pystr * pystr))
    : res (dict (list element)) :=
  load (List.filter (fun row => kept (fst row)) data) [].

(** The record of an article: lines 153 to 158. *)
Record doc := Doc {
  doc_title : pystr; doc_content : pystr; doc_citation : pystr; doc_law : pystr }.

(** Lines 141 to 158: the record made of one article of the law [law]. *)
Definition doc_of (law : pystr) (d : dieu) : doc :=
  let citation := law in
  let article_name := replace (py "Dieu") (py "Điều") (dieu_Dieu d) in
  let content := postprocess (get_text_from_structure d false) in
  Doc article_name content (article_name ++ py " " ++ citation) law.

(** Lines 135 to 161: one element of the tree of a law; an element
    without the key "Chuong" is passed over. *)
Definition element_documents (law : pystr) (documents : list doc) (e : element)
    : list doc :=
  match e with
  | EChuong _ ds _ => foldl (fun docs d => docs ++ [doc_of law d]) documents ds
  | EPreamble _ => documents
  end.

(** Lines 134 to 161: the loop over the keys of the dictionary. *)
Fixpoint law_documents (hs : dict (list element)) (laws : list pystr)
    (documents : list doc) : res (list doc) :=
  match laws with
  | [] => Ok documents
  | law :: laws' =>
    do t <- dict_get law hs ;
    law_documents hs laws' (foldl (element_documents law) documents t)
  end.

(** [documents], from the rows of the file. *)
Definition documents (data : list (pystr * pystr)) : res (list doc) :=
  do hs <- hierarchical_structures data ;
  law_documents hs hs.*1 [].

(** The node made of a record, with its metadata: lines 167 to 178. *)
Record text_node := TextNode {
  node_text : pystr; node_name : pystr; node_type : pystr;
  node_citation : pystr; node_law : pystr }.

Definition nodes (docs : list doc) : list text_node :=
  map (fun c => TextNode (doc_content c) (doc_title c) (py "Điều")
                         (doc_citation c) (doc_law c)) docs.

(** ** What the records are made of *)

(** The numbers of the lines of a text that are taken as article
    headers, in the order of the lines. *)
Definition article_numbers (lines : list pystr) : list pystr :=
  flat_map (fun raw => match classify (strip raw) with
                       | ArticleHeader n => [n]
                       | _ => []
                       end) lines.

(** The keys of a list of rows, each at its first place. *)
Fixpoint first_seen (seen : list pystr) (keys : list pystr) : list pystr :=
  match keys with
  | [] => []
  | k :: keys' =>
    if bool_decide (k ∈ seen) then first_seen seen keys'
    else k :: first_seen (k :: seen) keys'
  end.

(** The text of the last row with the subject [law]. *)
Definition last_text (law : pystr) (rows : list (pystr * pystr)) : option pystr :=
  last (map snd (List.filter (fun row => bool_decide (fst row = law)) rows)).

(** The records of one tree. *)
Definition tree_documents (law : pystr) (t : list element) : list doc :=
  map (doc_of law) (dieus t).

(** * Facts *)

(** ** The matcher and what a pattern matches *)

Lemma orelse_Some {A} (a b : option A) x :
  orelse a b = Some x -> a = Some x \/ (a = None /\ b = Some x).
Proof. destruct a; simpl; auto. Qed.

Lemma orelse_is_Some {A} (a b : option A) :
  is_Some a \/ is_Some b -> is_Some (orelse a b).
Proof. destruct a; simpl; [eauto | by intros [[? [=]]|]]. Qed.

(** Repetitions of one class [p] before the rest [k] of a pattern. *)
Section Repetition.
Variable p : cp -> bool.
Variable k : kont.

Lemma star_sound : forall s pos c m,
  star p k pos s c = Some m ->
  exists w rest, s = w ++ rest /\ Forall (fun x => p x = true) w
                 /\ k (pos + length w)%nat rest c = Some m.
Proof.
  induction s as [|x s IH]; intros pos c m H; simpl in H.
  - exists [], []. rewrite Nat.add_0_r. auto.
  - destruct (p x) eqn:Hp.
    + apply orelse_Some in H as [H | [_ H]].
      * apply IH in H as (w & rest & -> & Hw & Hk).
        exists (x :: w), rest. simpl. rewrite Nat.add_succ_comm in Hk. auto.
      * exists [], (x :: s). rewrite Nat.add_0_r. auto.
    + exists [], (x :: s). rewrite Nat.add_0_r. auto.
Qed.

Lemma star_lazy_sound : forall s pos c m,
  star_lazy p k pos s c = Some m ->
  exists w rest, s = w ++ rest /\ Forall (fun x => p x = true) w
                 /\ k (pos + length w)%nat rest c = Some m.
Proof.
  induction s as [|x s IH]; intros pos c m H; simpl in H.
  - apply orelse_Some in H as [H | [_ [=]]].
    exists [], []. rewrite Nat.add_0_r. auto.
  - apply orelse_Some in H as [H | [_ H]].
    + exists [], (x :: s). rewrite Nat.add_0_r. auto.
    + destruct (p x) eqn:Hp; [|done].
      apply IH in H as (w & rest & -> & Hw & Hk).
      exists (x :: w), rest. simpl. rewrite Nat.add_succ_comm in Hk. auto.
Qed.

Lemma one_sound pos s c m :
  one p k pos s c = Some m ->
  exists x s', s = x :: s' /\ p x = true /\ k (S pos) s' c = Some m.
Proof.
  unfold one. destruct s as [|x s']; [done|]. destruct (p x) eqn:Hp; [|done]. eauto.
Qed.

Lemma star_complete : forall w rest pos c,
  Forall (fun x => p x = true) w ->
  (forall c', is_Some (k (pos + length w)%nat rest c')) ->
  is_Some (star p k pos (w ++ rest) c).
Proof.
  induction w as [|x w IH]; intros rest pos c Hw Hk; simpl.
  - rewrite Nat.add_0_r in Hk. destruct rest as [|y rest]; simpl; [done|].
    destruct (p y); [|done]. apply orelse_is_Some. auto.
  - apply Forall_cons in Hw as [-> Hw]. apply orelse_is_Some. left.
    apply IH; [done|]. intros c'. rewrite Nat.add_succ_comm. apply Hk.
Qed.

Lemma star_lazy_complete : forall w rest pos c,
  Forall (fun x => p x = true) w ->
  (forall c', is_Some (k (pos + length w)%nat rest c')) ->
  is_Some (star_lazy p k pos (w ++ rest) c).
Proof.
  induction w as [|x w IH]; intros rest pos c Hw Hk.
  - rewrite Nat.add_0_r in Hk. simpl. destruct rest; simpl; apply orelse_is_Some; auto.
  - apply Forall_cons in Hw as [Hx Hw]. simpl. rewrite Hx.
    apply orelse_is_Some. right.
    apply IH; [done|]. intros c'. rewrite Nat.add_succ_comm. apply Hk.
Qed.

End Repetition.

(** A match found by the matcher is a match of the pattern. *)
Lemma run_sound r : forall k pos s c m,
  run r k pos s c = Some m ->
  exists w rest c', s = w ++ rest /\ lang r pos w rest
                    /\ k (pos + length w)%nat rest c' = Some m.
Proof.
  induction r as [| |p|p|p|p|r IH|r1 IH1 r2 IH2|r1 IH1 r2 IH2|n r IH];
    intros k pos s c m H; simpl in H.
  - destruct (Nat.eqb_spec pos 0) as [->|]; [|done].
    exists [], s, c. simpl. auto.
  - exists [], s, c. rewrite Nat.add_0_r. simpl.
    destruct s as [|x [|y s]]; [auto| |done].
    destruct (N.eqb_spec x NL) as [->|]; [|done]. auto.
  - apply one_sound in H as (x & s' & -> & Hp & Hk).
    exists [x], s', c. simpl. rewrite Nat.add_1_r. eauto.
  - apply star_sound in H as (w & rest & -> & Hw & Hk). exists w, rest, c. auto.
  - apply one_sound in H as (x & s' & -> & Hp & Hk).
    apply star_sound in Hk as (w & rest & -> & Hw & Hk).
    exists (x :: w), rest, c. simpl. rewrite Nat.add_succ_comm in Hk. auto.
  - apply one_sound in H as (x & s' & -> & Hp & Hk).
    apply star_lazy_sound in Hk as (w & rest & -> & Hw & Hk).
    exists (x :: w), rest, c. simpl. rewrite Nat.add_succ_comm in Hk. auto.
  - apply orelse_Some in H as [H | [_ H]].
    + apply IH in H as (w & rest & c' & -> & Hw & Hk). exists w, rest, c'. simpl. auto.
    + exists [], s, c. rewrite Nat.add_0_r. simpl. auto.
  - apply IH1 in H as (w1 & rest1 & c1 & -> & Hw1 & H).
    apply IH2 in H as (w2 & rest & c2 & -> & Hw2 & Hk).
    exists (w1 ++ w2), rest, c2. rewrite <- app_assoc, length_app, Nat.add_assoc.
    split; [done|]. split; [|done]. simpl. eauto.
  - apply orelse_Some in H as [H | [_ H]].
    + apply IH1 in H as (w & rest & c' & -> & Hw & Hk). exists w, rest, c'. simpl. auto.
    + apply IH2 in H as (w & rest & c' & -> & Hw & Hk). exists w, rest, c'. simpl. auto.
  - apply IH in H as (w & rest & c' & -> & Hw & Hk). simpl. eauto 10.
Qed.

(** The matcher finds a match wherever the pattern has one after which the
    rest of the pattern goes through. *)
Lemma run_complete r : forall k pos w rest c,
  lang r pos w rest ->
  (forall c', is_Some (k (pos + length w)%nat rest c')) ->
  is_Some (run r k pos (w ++ rest) c).
Proof.
  induction r as [| |p|p|p|p|r IH|r1 IH1 r2 IH2|r1 IH1 r2 IH2|n r IH];
    intros k pos w rest c Hl Hk; simpl in Hl |- *.
  - destruct Hl as [-> ->]. simpl in *. done.
  - destruct Hl as [-> Hrest]. rewrite Nat.add_0_r in Hk. simpl.
    destruct Hrest as [-> | ->]; simpl; done.
  - destruct Hl as (x & -> & Hp). simpl. rewrite Hp. rewrite Nat.add_1_r in Hk. done.
  - by apply star_complete.
  - destruct Hl as [Hne Hw]. destruct w as [|x w]; [done|].
    apply Forall_cons in Hw as [Hx Hw]. simpl. rewrite Hx.
    apply star_complete; [done|]. intros c'. rewrite Nat.add_succ_comm. apply Hk.
  - destruct Hl as [Hne Hw]. destruct w as [|x w]; [done|].
    apply Forall_cons in Hw as [Hx Hw]. simpl. rewrite Hx.
    apply star_lazy_complete; [done|]. intros c'. rewrite Nat.add_succ_comm. apply Hk.
  - apply orelse_is_Some. destruct Hl as [-> | Hl].
    + right. rewrite Nat.add_0_r in Hk. done.
    + left. by apply IH.
  - destruct Hl as (w1 & w2 & -> & H1 & H2). rewrite <- app_assoc.
    apply IH1; [done|]. intros c'. apply IH2; [done|].
    intros c''. rewrite length_app, Nat.add_assoc in Hk. done.
  - apply orelse_is_Some. destruct Hl as [Hl | Hl]; [left; by apply IH1 | right; by apply IH2].
  - apply IH; [done|]. intros c'. apply Hk.
Qed.

Lemma accept_Some pos s c m : accept pos s c = Some m -> m_end m = pos.
Proof. by intros [= <-]. Qed.

Lemma run_accept_sound r pos s m :
  run r accept pos s [] = Some m ->
  exists w rest, s = w ++ rest /\ lang r pos w rest /\ m_end m = (pos + length w)%nat.
Proof.
  intros (w & rest & c' & -> & Hl & Hk)%run_sound. apply accept_Some in Hk. eauto.
Qed.

Lemma run_accept_complete r pos w rest :
  lang r pos w rest -> is_Some (run r accept pos (w ++ rest) []).
Proof. intros Hl. apply run_complete; [done|]. intros c'. by eexists. Qed.

Lemma run_None_no_match r pos s w rest :
  run r accept pos s [] = None -> s = w ++ rest -> ~ lang r pos w rest.
Proof.
  intros Hn -> Hl. apply (run_accept_complete r pos w rest) in Hl as [m Hm]. congruence.
Qed.

(** *** Searching *)

Lemma search_from_Some r : forall s pos i m,
  search_from r pos s = Some (i, m) ->
  exists j, i = (pos + j)%nat /\ (j <= length s)%nat
            /\ run r accept i (drop j s) [] = Some m
            /\ forall j', (j' < j)%nat -> run r accept (pos + j') (drop j' s) [] = None.
Proof.
  induction s as [|x s IH]; intros pos i m H; simpl in H.
  - destruct (run r accept pos [] []) as [m'|] eqn:E; [|done].
    injection H as <- <-. exists O. rewrite Nat.add_0_r. simpl. repeat split; auto; lia.
  - destruct (run r accept pos (x :: s) []) as [m'|] eqn:E.
    + injection H as <- <-. exists O. rewrite Nat.add_0_r. simpl. repeat split; auto; lia.
    + apply IH in H as (j & -> & Hj & Hr & Hn). exists (S j).
      rewrite <- Nat.add_succ_comm. simpl. repeat split; [lia | done |].
      intros [|j'] Hlt; simpl; [by rewrite Nat.add_0_r|].
      rewrite <- Nat.add_succ_comm. apply Hn. lia.
Qed.

Lemma search_from_None r : forall s pos,
  search_from r pos s = None ->
  forall j, (j <= length s)%nat -> run r accept (pos + j) (drop j s) [] = None.
Proof.
  induction s as [|x s IH]; intros pos H j Hj; simpl in H.
  - destruct (run r accept pos [] []) eqn:E; [done|].
    simpl in Hj. assert (j = O) as -> by lia. by rewrite Nat.add_0_r.
  - destruct (run r accept pos (x :: s) []) eqn:E; [done|].
    destruct j as [|j]; simpl; [by rewrite Nat.add_0_r|].
    rewrite <- Nat.add_succ_comm. apply IH; [done | simpl in Hj; lia].
Qed.

(** [re.search] finds something exactly when the pattern occurs. *)
Lemma re_search_occurs r s : is_Some (re_search r s) <-> occurs r s.
Proof.
  unfold re_search. split.
  - intros [[i m] (j & -> & Hj & Hr & _)%search_from_Some]. simpl in Hr.
    apply run_accept_sound in Hr as (w & rest & Heq & Hl & _).
    exists j, w, rest. auto.
  - intros (i & w & rest & Heq & Hi & Hl).
    destruct (search_from r 0 s) as [x|] eqn:E; [by eexists|].
    pose proof (search_from_None r s 0 E i Hi) as Hn. simpl in Hn.
    by destruct (run_None_no_match r i _ w rest Hn Heq).
Qed.

(** *** Substituting *)

(** Dropping the rest of a match. *)
Lemma sub_from_skip r repl : forall k s pos,
  (k <= length s)%nat ->
  sub_from r repl pos k s = sub_from r repl (pos + k) O (drop k s).
Proof.
  induction k as [|k IH]; intros s pos Hk.
  - by rewrite Nat.add_0_r.
  - destruct s as [|x s]; simpl in Hk; [lia|]. simpl sub_from at 1. simpl drop.
    rewrite IH by lia. by rewrite Nat.add_succ_comm.
Qed.

(** Copying up to the first match. *)
Lemma sub_from_copy r repl : forall n s pos,
  (n <= length s)%nat ->
  (forall j, (j < n)%nat -> run r accept (pos + j) (drop j s) [] = None) ->
  sub_from r repl pos O s = take n s ++ sub_from r repl (pos + n) O (drop n s).
Proof.
  induction n as [|n IH]; intros s pos Hn Hnone.
  - by rewrite Nat.add_0_r.
  - destruct s as [|x s]; simpl in Hn; [lia|].
    pose proof (Hnone O ltac:(lia)) as H0. rewrite Nat.add_0_r in H0. simpl in H0.
    simpl sub_from at 1. rewrite H0. simpl. f_equal.
    rewrite (IH s (S pos)); [by rewrite Nat.add_succ_comm | lia |].
    intros j Hj. specialize (Hnone (S j) ltac:(lia)).
    by rewrite <- Nat.add_succ_comm in Hnone.
Qed.

(** The substitution of a pattern whose first match starts at [i], is not
    empty and ends where only [tail] is left, in which the pattern has no
    match: the text before [i], the replacement, and [tail]. *)
Lemma sub_from_one r repl s i m tail :
  (i <= length s)%nat ->
  (forall j, (j < i)%nat -> run r accept j (drop j s) [] = None) ->
  run r accept i (drop i s) [] = Some m ->
  (i < m_end m)%nat -> drop (m_end m) s = tail -> (m_end m <= length s)%nat ->
  sub_from r repl (m_end m) O tail = tail ->
  re_sub r repl s = take i s ++ repl ++ tail.
Proof.
  intros Hi Hnone Hm Hlt Htail Hend Hfix. unfold re_sub.
  rewrite (sub_from_copy r repl i s 0 Hi Hnone). f_equal. simpl.
  destruct (drop i s) as [|x s'] eqn:Ed.
  { apply (f_equal length) in Ed. rewrite length_drop in Ed. simpl in Ed. lia. }
  simpl. rewrite Hm. f_equal.
  destruct (Nat.eqb_spec (m_end m) i) as [|_]; [lia|].
  assert (s' = drop (S i) s) as ->.
  { replace (S i) with (i + 1)%nat by lia. rewrite <- drop_drop, Ed. done. }
  rewrite sub_from_skip by (rewrite length_drop; lia).
  rewrite drop_drop.
  replace (S i + (m_end m - S i))%nat with (m_end m) by lia.
  by rewrite Htail.
Qed.

Lemma Forall_excludes (p : cp -> bool) x w :
  p x = false -> Forall (fun y => p y = true) w -> x ∉ w.
Proof.
  intros Hx Hw Hin. rewrite Forall_forall in Hw. apply Hw in Hin. congruence.
Qed.

Lemma lang_excludes x r : forall pos w rest,
  excludes x r -> lang r pos w rest -> x ∉ w.
Proof.
  induction r as [| |p|p|p|p|r IH|r1 IH1 r2 IH2|r1 IH1 r2 IH2|n r IH];
    intros pos w rest He Hl; simpl in *.
  - destruct Hl as [-> _]. apply not_elem_of_nil.
  - destruct Hl as [-> _]. apply not_elem_of_nil.
  - destruct Hl as (y & -> & Hy). intros ->%list_elem_of_singleton. congruence.
  - by eapply Forall_excludes.
  - destruct Hl as [_ Hl]. by eapply Forall_excludes.
  - destruct Hl as [_ Hl]. by eapply Forall_excludes.
  - destruct Hl as [-> | Hl]; [apply not_elem_of_nil | by eapply IH].
  - destruct He as [He1 He2]. destruct Hl as (w1 & w2 & -> & Hl1 & Hl2).
    rewrite elem_of_app. intros [H | H]; [by eapply IH1 | by eapply IH2].
  - destruct He as [He1 He2]. destruct Hl as [Hl | Hl]; [by eapply IH1 | by eapply IH2].
  - by eapply IH.
Qed.

Lemma section_mark_no_NL : excludes NL SECTION_MARK.
Proof. repeat split. Qed.


Lemma section_tail_prefix pos w rest :
  lang SECTION_TAIL pos w rest ->
  exists w1 w2, w = w1 ++ w2 /\ lang SECTION_MARK pos w1 (w2 ++ rest)
                /\ w2 <> [] /\ (NL ∉ w2) /\ (rest = [] \/ rest = [NL]).
Proof.
  unfold SECTION_TAIL.
  cbn [lang].
  intros (w1 & w23 & -> & H1 & w2 & w3 & -> & [Hne Hdot] & -> & Hrest).
  exists w1, w2. rewrite !app_nil_r in *. repeat split; try done.
  by apply (Forall_excludes dot).
Qed.


Lemma occurs_at_le r s i : occurs_at r s i -> (i <= length s)%nat.
Proof. by intros (w & rest & _ & Hi & _). Qed.



(** ** First characters *)

Lemma isdecimal_range x : isdecimal x = true -> (48 <= x <= 57) \/ 1632 <= x.
Proof.
  unfold isdecimal. intros (z & Hz & Hx)%existsb_exists.
  apply andb_prop in Hx as [H1%N.leb_le H2%N.ltb_lt].
  unfold decimal_zeros in Hz. simpl in Hz.
  repeat (destruct Hz as [<- | Hz]; [lia|]). done.
Qed.

Ltac by_cases :=
  repeat match goal with
  | |- context [N.leb ?a ?b] => destruct (N.leb_spec a b); simpl
  | |- context [N.eqb ?a ?b] => destruct (N.eqb_spec a b); simpl
  | |- context [N.ltb ?a ?b] => destruct (N.ltb_spec a b); simpl
  | H : context [N.leb ?a ?b] |- _ => destruct (N.leb_spec a b); simpl in H
  | H : context [N.eqb ?a ?b] |- _ => destruct (N.eqb_spec a b); simpl in H
  | H : context [N.ltb ?a ?b] |- _ => destruct (N.ltb_spec a b); simpl in H
  end; try done; try lia.

Lemma lit_i_C x : lit_i 67 x = true -> x = 67 \/ x = 99.
Proof. unfold lit_i, unicode_tolower, extra_cases. simpl. by_cases. Qed.

Lemma lit_i_D_stroke x : lit_i 272 x = true -> x = 272 \/ x = 273.
Proof. unfold lit_i, unicode_tolower, extra_cases. simpl. by_cases. Qed.

Lemma letter_range x :
  one_of (a_z ++ [d_stroke] ++ A_Z ++ [D_stroke]) x = true ->
  (65 <= x <= 122) \/ x = 272 \/ x = 273.
Proof.
  unfold one_of. intros (z & Hz & ->%N.eqb_eq)%existsb_exists.
  unfold a_z, A_Z, d_stroke, D_stroke in Hz. simpl in Hz.
  repeat (destruct Hz as [<- | Hz]; [lia|]). done.
Qed.

Ltac eval_py :=
  repeat match goal with
  | |- context [py ?s] => let v := eval vm_compute in (py s) in change (py s) with v
  end.

Lemma match_first_chuong x s :
  is_Some (re_match CHUONG_PATTERN (x :: s)) -> x = 67 \/ x = 99.
Proof.
  unfold re_match, CHUONG_PATTERN. eval_py. cbn -[lit_i isspace isdecimal class_i star].
  destruct (lit_i 67 x) eqn:E; [|by intros []%is_Some_None]. intros _. by apply lit_i_C.
Qed.

Lemma match_first_dieu x s :
  is_Some (re_match DIEU_PATTERN (x :: s)) -> x = 272 \/ x = 273.
Proof.
  unfold re_match, DIEU_PATTERN. eval_py. cbn -[lit_i isspace isdecimal class_i star].
  destruct (lit_i 272 x) eqn:E; [|by intros []%is_Some_None]. intros _. by apply lit_i_D_stroke.
Qed.

Lemma match_first_khoan line :
  is_Some (re_match KHOAN_PATTERN line) -> exists x s, line = x :: s /\ isdecimal x = true.
Proof.
  unfold re_match, KHOAN_PATTERN. destruct line as [|x s]; [by intros []%is_Some_None|].
  cbn -[isspace isdecimal star].
  destruct (isdecimal x) eqn:E; [eauto | by intros []%is_Some_None].
Qed.

Lemma match_first_muc line :
  is_Some (re_match MUC_PATTERN line) ->
  exists x s, line = x :: 41 :: s
              /\ one_of (a_z ++ [d_stroke] ++ A_Z ++ [D_stroke]) x = true.
Proof.
  unfold re_match, MUC_PATTERN. destruct line as [|x s]; [by intros []%is_Some_None|].
  cbn -[isspace isdecimal star one_of app a_z A_Z].
  destruct (one_of _ x) eqn:E; [|by intros []%is_Some_None].
  destruct s as [|y s]; [by intros []%is_Some_None|]. unfold one, lit.
  destruct (N.eqb_spec 41 y) as [<-|]; [eauto | by intros []%is_Some_None].
Qed.

Lemma not_Some_None {A} (o : option A) : ~ is_Some o -> o = None.
Proof. destruct o; [intros []; eauto | done]. Qed.

(** A line of the clause pattern is neither a chapter nor an article
    header. *)
Lemma khoan_line_not_header line :
  is_Some (re_match KHOAN_PATTERN line) ->
  re_match CHUONG_PATTERN line = None /\ re_match DIEU_PATTERN line = None.
Proof.
  intros (x & s & -> & [Hx | Hx]%isdecimal_range)%match_first_khoan;
    split; apply not_Some_None.
  - intros H%match_first_chuong. lia.
  - intros H%match_first_dieu. lia.
  - intros H%match_first_chuong. lia.
  - intros H%match_first_dieu. lia.
Qed.

(** A line of the point pattern is no header of the other three kinds. *)
Lemma muc_line_not_header line :
  is_Some (re_match MUC_PATTERN line) ->
  re_match CHUONG_PATTERN line = None /\ re_match DIEU_PATTERN line = None
  /\ re_match KHOAN_PATTERN line = None.
Proof.
  intros (x & s & -> & Hx%letter_range)%match_first_muc.
  split; [|split].
  - unfold re_match, CHUONG_PATTERN. eval_py. cbn -[lit_i isspace isdecimal class_i star].
    destruct (lit_i 67 x); done.
  - unfold re_match, DIEU_PATTERN. eval_py. cbn -[lit_i isspace isdecimal class_i star].
    destruct (lit_i 272 x); done.
  - apply not_Some_None.
    intros (y & s' & [= <- _] & [Hy | Hy]%isdecimal_range)%match_first_khoan; lia.
Qed.

(** ** The store and the tree it holds *)

Lemma holds_lt h C r o : holds h C -> (r, o) ∈ C -> (r < length h)%nat.
Proof. intros [_ H] Hin. eapply lookup_lt_Some, H, Hin. Qed.

Lemma holds_nil h : holds h [].
Proof. split; [constructor | intros r o Hin; inversion Hin]. Qed.

(** Growing the open nodes: the cells [P] are replaced by [P'], each at an
    old reference of [P] or at a fresh one, and the rest [X] is left. *)
Lemma holds_spine h h' (P P' X : list (ref * obj)) :
  holds h (P ++ X) ->
  (forall r, r ∈ X.*1 -> (r < length h)%nat -> r ∉ P.*1 -> h' !! r = h !! r) ->
  NoDup P'.*1 ->
  (forall r o, (r, o) ∈ P' -> h' !! r = Some o) ->
  (forall r, r ∈ P'.*1 -> r ∈ P.*1 \/ (length h <= r)%nat) ->
  holds h' (P' ++ X).
Proof.
  intros [Hnd Hh] Hframe Hnd' Hh' Hfresh.
  rewrite fmap_app in Hnd. apply NoDup_app in Hnd as (HndP & Hdisj & HndX).
  split.
  - rewrite fmap_app. apply NoDup_app. split; [done|]. split; [|done].
    intros r Hr HrX. destruct (Hfresh r Hr) as [HrP | Hge].
    + by apply (Hdisj r).
    + apply list_elem_of_fmap in HrX as ([r' o] & -> & Hin).
      assert (h !! r' = Some o) as Hl by (apply Hh, elem_of_app; by right).
      apply lookup_lt_Some in Hl. simpl in Hge. lia.
  - intros r o [Hin | Hin]%elem_of_app; [by apply Hh'|].
    assert (r ∈ X.*1) as HrX by (apply list_elem_of_fmap; by exists (r, o)).
    assert (h !! r = Some o) as Hl by (apply Hh, elem_of_app; by right).
    rewrite Hframe; [done | done | by eapply lookup_lt_Some |].
    intros HrP. by apply (Hdisj r).
Qed.

Ltac cell_in H :=
  repeat match type of H with
  | _ ∈ [] => by apply elem_of_nil in H
  | _ ∈ _ :: _ => apply elem_of_cons in H as [[= -> ->] | H]
  end.

Ltac nodup_small :=
  repeat (apply NoDup_cons_2;
          [rewrite ?not_elem_of_cons; repeat split; try apply not_elem_of_nil; lia|]);
  apply NoDup_nil_2.

Ltac old_or_fresh :=
  let r := fresh "r" in let Hin := fresh "Hin" in
  intros r Hin; rewrite ?elem_of_cons, ?elem_of_nil in *; simpl in *;
  naive_solver lia.

(** The first cells of a held list: the store has them, at references
    that differ from one another. *)
Lemma holds_head h r o C : holds h ((r, o) :: C) ->
  h !! r = Some o /\ (r < length h)%nat /\ r ∉ C.*1 /\ holds h C.
Proof.
  intros [Hnd Hh]. simpl in Hnd. apply NoDup_cons in Hnd as [Hn Hnd].
  assert (h !! r = Some o) as Hl by (apply Hh; left).
  split; [done|]. split; [by eapply lookup_lt_Some|]. split; [done|].
  split; [done|]. intros r' o' Hin. apply Hh. by right.
Qed.

Ltac spine_facts H :=
  let Hl := fresh "Hl" in let Hlt := fresh "Hlt" in
  let Hn := fresh "Hn" in let H' := fresh "Hrest" in
  pose proof (holds_head _ _ _ _ H) as (Hl & Hlt & Hn & H');
  simpl in Hn; rewrite ?not_elem_of_cons in Hn.

Ltac frame_tac :=
  let r := fresh "r" in let Hlt := fresh "Hlt" in let Hne := fresh "Hne" in
  intros r _ Hlt Hne; simpl in Hne; rewrite ?not_elem_of_cons in Hne;
  rewrite ?list_lookup_insert_ne by (naive_solver lia);
  rewrite ?lookup_app_l by (rewrite ?length_app; simpl; lia);
  done.

Ltac lookup_tac :=
  rewrite ?length_app in *; simpl in *;
  repeat first
    [ done
    | rewrite list_lookup_insert_eq by (rewrite ?length_insert, ?length_app; simpl; lia)
    | rewrite list_lookup_insert_ne by lia
    | rewrite lookup_app_l by (rewrite ?length_app; simpl; lia)
    | apply list_lookup_middle; rewrite ?length_app; simpl; lia
    | rewrite <- app_assoc; simpl ].

Ltac size_tac := rewrite ?length_insert, ?length_app in *; simpl in *; lia.

(** The cells of the open nodes [P] become [P'] and the rest is kept. *)
Tactic Notation "grown" constr(Hheap) "from" open_constr(P) "to" open_constr(P') :=
  eapply (holds_spine _ _ P P' _ Hheap); simpl;
  [ frame_tac | nodup_small
  | let r := fresh "r" in let o := fresh "o" in let Hin := fresh "Hin" in
    intros r o Hin; cell_in Hin; lookup_tac
  | old_or_fresh ].

Lemma stands_chuong h hi cc cd ck cm G line :
  stands (State h hi cc cd ck cm) G ->
  stands (State (h ++ [DChuong line [] None]) (hi ++ [length h]) (Some (length h)) None None None)
         (GChuong (length h) line [] None :: G).
Proof.
  intros [Hhier Hheap Hc Hd Hk Hm Hsz]; simpl in *.
  split; simpl; try done; [by rewrite Hhier | | size_tac].
  grown Hheap from [] to [(length h, _)].
Qed.

Lemma stands_dieu_open h hi cd ck cm c t ds cc R l ct :
  stands (State h hi (Some c) cd ck cm) (GChuong c t ds cc :: R) ->
  exists h', append_Dieu c (length h) (h ++ [DDieu l ct []]) = Ok h' /\
  stands (State h' hi (Some c) (Some (length h)) None None)
         (GChuong c t (GDieu (length h) l ct [] :: ds) cc :: R).
Proof.
  intros [Hhier Hheap Hc Hd Hk Hm Hsz]; simpl in *.
  spine_facts Hheap.
  unfold append_Dieu, deref. rewrite lookup_app_l by done. rewrite Hl. simpl.
  eexists; split; [done|].
  split; simpl; try done; [| size_tac].
  grown Hheap from [_] to [(c, _); (length h, _)].
Qed.

Lemma stands_dieu_closed h hi cc cd ck cm G l ct :
  stands (State h hi cc cd ck cm) G ->
  let d := length h in
  let h1 := h ++ [DDieu l ct []] in
  let c := length h1 in
  let h2 := h1 ++ [DChuong (py "Chuong 0") [] None] in
  exists h', append_Dieu c d h2 = Ok h' /\
  stands (State h' (hi ++ [c]) (Some c) (Some d) None None)
         (GChuong (S d) (py "Chuong 0") [GDieu d l ct []] None :: G).
Proof.
  intros [Hhier Hheap Hc Hd Hk Hm Hsz]; simpl in *.
  unfold append_Dieu, deref. rewrite list_lookup_middle by done. simpl.
  eexists; split; [done|].
  rewrite length_app, Nat.add_1_r. simpl.
  split; simpl; try done; [by rewrite Hhier | | size_tac].
  grown Hheap from [] to [(S (length h), _); (length h, _)].
Qed.

Lemma stands_khoan h hi ck cm c t d l ct ks ds cc R kl kct :
  stands (State h hi (Some c) (Some d) ck cm)
         (GChuong c t (GDieu d l ct ks :: ds) cc :: R) ->
  exists h', append_Khoan d (length h) (h ++ [DKhoan kl kct []]) = Ok h' /\
  stands (State h' hi (Some c) (Some d) (Some (length h)) None)
         (GChuong c t (GDieu d l ct (GKhoan (length h) kl kct [] :: ks) :: ds) cc :: R).
Proof.
  intros [Hhier Hheap Hc Hd Hk Hm Hsz]; simpl in *.
  spine_facts Hheap. spine_facts Hrest.
  unfold append_Khoan, deref. rewrite lookup_app_l by done. rewrite Hl0. simpl.
  eexists; split; [done|].
  split; simpl; try done; [| size_tac].
  grown Hheap from [_; _] to [(c, _); (d, _); (length h, _)].
Qed.

Lemma stands_muc h hi cm c t d l ct k kl kct ms ks ds cc R ml mct :
  stands (State h hi (Some c) (Some d) (Some k) cm)
         (GChuong c t (GDieu d l ct (GKhoan k kl kct ms :: ks) :: ds) cc :: R) ->
  exists h', append_Muc k (length h) (h ++ [DMuc ml mct]) = Ok h' /\
  stands (State h' hi (Some c) (Some d) (Some k) (Some (length h)))
         (GChuong c t (GDieu d l ct (GKhoan k kl kct (GMuc (length h) ml mct :: ms) :: ks) :: ds) cc :: R).
Proof.
  intros [Hhier Hheap Hc Hd Hk Hm Hsz]; simpl in *.
  spine_facts Hheap. spine_facts Hrest. spine_facts Hrest0.
  unfold append_Muc, deref. rewrite lookup_app_l by done. rewrite Hl1. simpl.
  eexists; split; [done|].
  split; simpl; try done; [| size_tac].
  grown Hheap from [_; _; _] to [(c, _); (d, _); (k, _); (length h, _)].
Qed.

Lemma str_in_dicts s l : str_in s l = false.
Proof. unfold str_in. by induction l. Qed.

Lemma stands_plain st G line :
  stands st G ->
  exists st', plain_content st line = Ok st' /\ stands st' (grow_plain G line).
Proof.
  destruct st as [h hi cc cd ck cm].
  intros [Hhier Hheap Hc Hd Hk Hm Hsz]. unfold grow_plain, fresh. rewrite <- Hsz.
  simpl in *. subst cc cd ck cm.
  destruct G as [|[p pt | c t [|[d l ct [|[k kl kct [|[m ml mct] ms]] ks]] ds] cc] R]; simpl in *.
  - rewrite str_in_dicts; simpl.
    eexists; split; [done|]. split; simpl; try done; [by rewrite Hhier | | size_tac].
    grown Hheap from [] to [(length h, _)].
  - rewrite str_in_dicts; simpl.
    eexists; split; [done|]. split; simpl; try done; [by rewrite Hhier | | size_tac].
    grown Hheap from [] to [(length h, _)].
  - spine_facts Hheap.
    unfold set_Content_from_get, deref. rewrite Hl. simpl.
    eexists; split; [done|]. split; simpl; try done; [| size_tac].
    grown Hheap from [_] to [(c, _)].
  - spine_facts Hheap. spine_facts Hrest.
    unfold iadd_Content, deref. rewrite Hl0. simpl.
    eexists; split; [done|]. split; simpl; try done; [| size_tac].
    grown Hheap from [_; _] to [(c, _); (d, _)].
  - spine_facts Hheap. spine_facts Hrest. spine_facts Hrest0.
    unfold iadd_Content, deref. rewrite Hl1. simpl.
    eexists; split; [done|]. split; simpl; try done; [| size_tac].
    grown Hheap from [_; _; _] to [(c, _); (d, _); (k, _)].
  - spine_facts Hheap. spine_facts Hrest. spine_facts Hrest0. spine_facts Hrest1.
    unfold iadd_Content, deref. rewrite Hl2. simpl.
    eexists; split; [done|]. split; simpl; try done; [| size_tac].
    grown Hheap from [_; _; _; _] to [(c, _); (d, _); (k, _); (m, _)].
Qed.

Lemma stands_khoan_muc_or_plain st G line :
  stands st G ->
  exists st', khoan_muc_or_plain st line = Ok st' /\
  stands st' (grow_khoan_muc_or_plain G line).
Proof.
  intros Hst. pose proof (stands_plain st G line Hst) as Hplain.
  destruct st as [h hi cc cd ck cm].
  pose proof Hst as [Hhier Hheap Hc Hd Hk Hm Hsz].
  unfold khoan_muc_or_plain, grow_khoan_muc_or_plain, fresh. rewrite <- Hsz.
  simpl in *. subst cc cd ck cm.
  destruct (re_match KHOAN_PATTERN line) as [mk|] eqn:Ek.
  - destruct G as [|[p pt | c t [|[d l ct ks] ds] cc] R]; simpl in *.
    1-3: destruct (re_match MUC_PATTERN line); exact Hplain.
    destruct (stands_khoan _ _ _ _ _ _ _ _ _ _ _ _ _ (py "Khoan " ++ group line mk 1) (group line mk 2) Hst)
      as (h' & Hh' & Hst').
    unfold new; simpl in *. rewrite Hh'. by eexists.
  - destruct (re_match MUC_PATTERN line) as [mm|] eqn:Em; [|exact Hplain].
    destruct G as [|[p pt | c t [|[d l ct [|[k kl kct ms] ks]] ds] cc] R]; simpl in *;
      try exact Hplain.
    destruct (stands_muc _ _ _ _ _ _ _ _ _ _ _ _ _ _ _ _ (py "Muc " ++ group line mm 1) (group line mm 2) Hst)
      as (h' & Hh' & Hst').
    unfold new; simpl in *. rewrite Hh'. by eexists.
Qed.

Lemma step_stands st G raw :
  stands st G -> exists st', step st raw = Ok st' /\ stands st' (grow G raw).
Proof.
  intros Hst. pose proof (stands_khoan_muc_or_plain st G (strip raw) Hst) as Hrest.
  destruct st as [h hi cc cd ck cm].
  pose proof Hst as [Hhier Hheap Hc Hd Hk Hm Hsz].
  unfold step, grow, fresh. rewrite <- Hsz. simpl in Hc |- *.
  case_bool_decide; [by eexists|].
  destruct (re_match CHUONG_PATTERN (strip raw)) as [mc|].
  { eexists; split; [done|]. by eapply stands_chuong. }
  destruct (re_match DIEU_PATTERN (strip raw)) as [md|]; [|exact Hrest].
  destruct G as [|[p pt | c t ds ct] R]; simpl in Hc; subst cc.
  - destruct (stands_dieu_closed _ _ _ _ _ _ _ (py "Dieu " ++ group (strip raw) md 1) (dieu_content_of (strip raw) md) Hst)
      as (h' & Hh' & Hst'). simpl in *. rewrite Hh'. by eexists.
  - destruct (stands_dieu_closed _ _ _ _ _ _ _ (py "Dieu " ++ group (strip raw) md 1) (dieu_content_of (strip raw) md) Hst)
      as (h' & Hh' & Hst'). simpl in *. rewrite Hh'. by eexists.
  - destruct (stands_dieu_open _ _ _ _ _ _ _ _ _ _ (py "Dieu " ++ group (strip raw) md 1) (dieu_content_of (strip raw) md) Hst)
      as (h' & Hh' & Hst'). simpl in *. rewrite Hh'. by eexists.
Qed.

Lemma steps_stands lines : forall st G,
  stands st G -> exists st', steps st lines = Ok st' /\ stands st' (grows G lines).
Proof.
  induction lines as [|l ls IH]; intros st G Hst; simpl.
  - by exists st.
  - destruct (step_stands st G l Hst) as (st1 & -> & Hst1). simpl.
    apply IH, Hst1.
Qed.

Lemma stands_initial : stands initial [].
Proof. split; simpl; try done. apply holds_nil. Qed.

Lemma traverse_app {A B} (f : A -> res B) l1 l2 bs1 bs2 :
  traverse f l1 = Ok bs1 -> traverse f l2 = Ok bs2 ->
  traverse f (l1 ++ l2) = Ok (bs1 ++ bs2).
Proof.
  revert bs1. induction l1 as [|a l1 IH]; simpl; intros bs1 H1 H2.
  - injection H1 as <-. done.
  - destruct (f a) as [b|]; simpl in *; [|done].
    destruct (traverse f l1) as [bs|]; simpl in *; [|done].
    injection H1 as <-. by rewrite (IH bs eq_refl H2).
Qed.

(** Reading the references of a list of nodes kept most recent first. *)
Lemma traverse_rev {A B N} (f : A -> res B) (r : N -> A) (v : N -> B) l :
  (forall x, x ∈ l -> f (r x) = Ok (v x)) ->
  traverse f (rev (map r l)) = Ok (rev (map v l)).
Proof.
  induction l as [|x l IH]; intros H; simpl; [done|].
  apply traverse_app.
  - apply IH. intros y Hy. apply H. by right.
  - simpl. rewrite H by left. done.
Qed.

Lemma has_cons h x C : has h (x :: C) -> h !! x.1 = Some x.2 /\ has h C.
Proof.
  intros H. split; [apply H; destruct x; left|]. intros r o Hin. apply H. by right.
Qed.

Lemma has_flat_map {N} h (f : N -> list (nat * obj)) l x :
  has h (flat_map f l) -> x ∈ l -> has h (f x).
Proof.
  intros H Hx r o Hin. apply H. apply list_elem_of_In, in_flat_map.
  exists x. split; by apply list_elem_of_In.
Qed.

Lemma has_app h C1 C2 : has h (C1 ++ C2) -> has h C1 /\ has h C2.
Proof. intros H. split; intros r o Hin; apply H, elem_of_app; auto. Qed.

Lemma read_muc_has h m : has h (cells_muc m) -> read_muc h (gm_ref m) = Ok (value_muc m).
Proof.
  intros [Hl _]%has_cons. unfold read_muc, deref. simpl in Hl. by rewrite Hl.
Qed.

Lemma read_khoan_has h k :
  has h (cells_khoan k) -> read_khoan h (gk_ref k) = Ok (value_khoan k).
Proof.
  intros [Hl H]%has_cons. unfold read_khoan, deref. simpl in Hl. rewrite Hl. simpl.
  rewrite (traverse_rev _ gm_ref value_muc); [done|].
  intros m Hm. eapply read_muc_has, has_flat_map; eauto.
Qed.

Lemma read_dieu_has h d :
  has h (cells_dieu d) -> read_dieu h (gd_ref d) = Ok (value_dieu d).
Proof.
  intros [Hl H]%has_cons. unfold read_dieu, deref. simpl in Hl. rewrite Hl. simpl.
  rewrite (traverse_rev _ gk_ref value_khoan); [done|].
  intros k Hk. eapply read_khoan_has, has_flat_map; eauto.
Qed.

Lemma read_element_has h g :
  has h (cells_root g) -> read_element h (groot_ref g) = Ok (value_root g).
Proof.
  intros [Hl H]%has_cons. unfold read_element, deref. simpl in Hl. rewrite Hl.
  destruct g as [r p | r t ds ct]; simpl; [done|].
  rewrite (traverse_rev _ gd_ref value_dieu); [done|].
  intros d Hd. eapply read_dieu_has, has_flat_map; eauto.
Qed.

Lemma read_stands st G : stands st G -> read_hierarchy st = Ok (value G).
Proof.
  intros [Hhier [_ Hheap] _ _ _ _ _]. unfold read_hierarchy, value. rewrite Hhier.
  apply traverse_rev. intros g Hg. eapply read_element_has, has_flat_map; eauto.
Qed.

(** The parser computes the value of the tree grown line by line. *)
Lemma parse_text_grows text : parse_text text = Ok (value (grows [] (split NL text))).
Proof.
  unfold parse_text.
  destruct (steps_stands (split NL text) initial [] stands_initial) as (st & -> & Hst).
  simpl. by apply read_stands.
Qed.


(** ** Document order *)

Lemma flat_map_snoc {A B} (f : A -> list B) l x :
  flat_map f (l ++ [x]) = flat_map f l ++ f x.
Proof. rewrite flat_map_app. simpl. by rewrite app_nil_r. Qed.

Lemma headers_khoan_cons k kl kct m ms :
  headers_khoan (value_khoan (GKhoan k kl kct (m :: ms)))
  = headers_khoan (value_khoan (GKhoan k kl kct ms)) ++ [HMuc (gm_Muc m)].
Proof. unfold headers_khoan. simpl. by rewrite map_app. Qed.

Lemma headers_dieu_cons d l ct k ks :
  headers_dieu (value_dieu (GDieu d l ct (k :: ks)))
  = headers_dieu (value_dieu (GDieu d l ct ks)) ++ headers_khoan (value_khoan k).
Proof. unfold headers_dieu. simpl. by rewrite flat_map_snoc. Qed.

Lemma headers_chuong_cons c t d ds ct :
  headers_element (value_root (GChuong c t (d :: ds) ct))
  = headers_element (value_root (GChuong c t ds ct)) ++ headers_dieu (value_dieu d).
Proof. simpl. by rewrite flat_map_snoc. Qed.

Lemma headers_cons g G :
  headers (value (g :: G)) = headers (value G) ++ headers_element (value_root g).
Proof. unfold headers, value. simpl. by rewrite flat_map_snoc. Qed.

Ltac headers_norm :=
  rewrite ?headers_cons, ?headers_chuong_cons, ?headers_dieu_cons, ?headers_khoan_cons;
  rewrite <- ?app_assoc; simpl; rewrite ?app_nil_r.

Lemma headers_grow_plain G line :
  headers (value (grow_plain G line)) = headers (value G)
  /\ opened_of (grow_plain G line) = opened_of G.
Proof.
  unfold grow_plain.
  destruct G as [|[p pt | c t [|[d l ct [|[k kl kct [|[m ml mct] ms]] ks]] ds] cc] R];
    split; try done; by headers_norm.
Qed.

Opaque grow_plain.

Lemma headers_grow G raw :
  headers (value (grow G raw))
  = headers (value G) ++ (header_of_line (opened_of G) raw).1
  /\ opened_of (grow G raw) = (header_of_line (opened_of G) raw).2.
Proof.
  unfold grow, header_of_line, classify, grow_khoan_muc_or_plain.
  case_bool_decide; [by rewrite app_nil_r|].
  destruct (re_match CHUONG_PATTERN (strip raw)) as [mc|].
  { split; [|done]. by headers_norm. }
  destruct (re_match DIEU_PATTERN (strip raw)) as [md|].
  { destruct G as [|[p pt | c t ds cc] R]; split; try done; by headers_norm. }
  pose proof (headers_grow_plain G (strip raw)) as [Hp1 Hp2].
  destruct (re_match KHOAN_PATTERN (strip raw)) as [mk|].
  { destruct G as [|[p pt | c t [|[d l ct ks] ds] cc] R]; simpl.
    1-3: destruct (re_match MUC_PATTERN (strip raw)); rewrite Hp1, Hp2; simpl;
         by rewrite ?app_nil_r.
    split; [|done]. by headers_norm. }
  destruct (re_match MUC_PATTERN (strip raw)) as [mm|].
  { destruct G as [|[p pt | c t [|[d l ct [|[k kl kct ms] ks]] ds] cc] R]; simpl;
      try (rewrite Hp1, Hp2; simpl; by rewrite ?app_nil_r).
    split; [|done]. by headers_norm. }
  rewrite Hp1, Hp2. simpl. by rewrite app_nil_r.
Qed.

Transparent grow_plain.

Lemma headers_grows lines : forall G,
  headers (value (grows G lines))
  = headers (value G) ++ header_lines_from (opened_of G) lines.
Proof.
  induction lines as [|l ls IH]; intros G; simpl.
  - by rewrite app_nil_r.
  - unfold grows in *. simpl. rewrite IH.
    destruct (headers_grow G l) as [-> ->].
    destruct (header_of_line (opened_of G) l) as [hs o']. simpl.
    by rewrite app_assoc.
Qed.

(** Claim C9. For every input text, parsing returns a tree whose nodes, read
    in document order (each chapter, then each of its articles followed by
    its clauses, each followed by its points), are exactly the header
    lines of the text in the order of the lines: chapters among the roots,
    articles within a chapter, clauses within an article and points
    within a clause keep the order of their lines, none is moved and none
    is merged with another. *)
Theorem parse_text_order (text : pystr) :
  exists t, parse_text text = Ok t /\ headers t = header_lines text.
Proof.
  exists (value (grows [] (split NL text))). split; [apply parse_text_grows|].
  by rewrite headers_grows.
Qed.

(** Claim C8. Parsing is total: for every input string the loop and the
    reading of its result go through without raising, and the empty
    string gives the empty tree. *)
Theorem parse_text_total (text : pystr) :
  (exists t, parse_text text = Ok t) /\ parse_text [] = Ok [].
Proof. split; [eexists; apply parse_text_grows | reflexivity]. Qed.


(** ** The root list *)

(** What a turn of the loop does to the root list. *)
Lemma grow_plain_roots G line :
  (exists c t ds cc ds' cc' R,
      G = GChuong c t ds cc :: R /\ grow_plain G line = GChuong c t ds' cc' :: R)
  \/ (open_chuong G = None /\ grow_plain G line = GPreamble (fresh G) line :: G).
Proof.
  unfold grow_plain.
  destruct G as [|[p pt | c t [|[d l ct [|[k kl kct [|[m ml mct] ms]] ks]] ds] cc] R];
    eauto 12.
Qed.

Lemma grow_roots G raw :
  grow G raw = G
  \/ (exists c t ds cc, grow G raw = GChuong c t ds cc :: G)
  \/ (exists c t ds cc ds' cc' R,
        G = GChuong c t ds cc :: R /\ grow G raw = GChuong c t ds' cc' :: R)
  \/ (open_chuong G = None /\ exists n line, grow G raw = GPreamble n line :: G).
Proof.
  pose proof (grow_plain_roots G (strip raw)) as Hplain.
  assert (forall X, X = grow_plain G (strip raw) ->
    X = G \/ (exists c t ds cc, X = GChuong c t ds cc :: G)
    \/ (exists c t ds cc ds' cc' R, G = GChuong c t ds cc :: R /\ X = GChuong c t ds' cc' :: R)
    \/ (open_chuong G = None /\ exists n line, X = GPreamble n line :: G)) as Hp.
  { intros X ->. destruct Hplain as [H | [H1 H2]]; [eauto | right; right; right; eauto]. }
  unfold grow, grow_khoan_muc_or_plain.
  case_bool_decide; [by left|].
  destruct (re_match CHUONG_PATTERN (strip raw)); [eauto 10|].
  destruct (re_match DIEU_PATTERN (strip raw)).
  { destruct G as [|[p pt | c t ds cc] R]; eauto 12. }
  destruct (re_match KHOAN_PATTERN (strip raw)).
  { destruct G as [|[p pt | c t [|[d l ct ks] ds] cc] R];
      try (destruct (re_match MUC_PATTERN (strip raw)); by apply Hp).
    right; right; left. eauto 12. }
  destruct (re_match MUC_PATTERN (strip raw)); [|by apply Hp].
  destruct G as [|[p pt | c t [|[d l ct [|[k kl kct ms] ks]] ds] cc] R];
    try by apply Hp.
  right; right; left. eauto 12.
Qed.

Lemma ordered_grow G raw : ordered G = true -> ordered (grow G raw) = true.
Proof.
  intros Ho.
  destruct (grow_roots G raw) as [-> | [(c & t & ds & cc & ->) |
    [(c & t & ds & cc & ds' & cc' & R & -> & ->) | (Hn & n & line & ->)]]]; try done.
  destruct G as [|[p pt | c t ds cc] R]; done.
Qed.

Lemma ordered_grows lines : forall G, ordered G = true -> ordered (grows G lines) = true.
Proof.
  induction lines as [|l ls IH]; intros G Ho; [done|].
  apply IH. by apply ordered_grow.
Qed.

Lemma value_cons g G : value (g :: G) = value G ++ [value_root g].
Proof. done. Qed.

Lemma all_preambles_value R :
  forallb (fun g => is_preamble (value_root g)) R = true ->
  forallb is_preamble (value R) = true.
Proof.
  induction R as [|g R IH]; [done|]. simpl. intros [Hg HR]%andb_prop.
  rewrite value_cons, forallb_app, IH by done. simpl. by rewrite Hg.
Qed.

Lemma ordered_value G :
  ordered G = true ->
  exists ps cs, value G = ps ++ cs /\ forallb is_preamble ps = true
                /\ forallb is_chuong cs = true.
Proof.
  induction G as [|[p pt | c t ds cc] R IH]; intros Ho; simpl in Ho.
  - by exists [], [].
  - exists (value (GPreamble p pt :: R)), []. rewrite app_nil_r. split; [done|].
    split; [|done]. rewrite value_cons, forallb_app, all_preambles_value by done. done.
  - destruct (IH Ho) as (ps & cs & Hv & Hps & Hcs).
    exists ps, (cs ++ [EChuong t (rev (map value_dieu ds)) cc]).
    rewrite value_cons, Hv, <- app_assoc. split; [done|]. split; [done|].
    rewrite forallb_app, Hcs. done.
Qed.

Lemma preambles_grow G raw :
  is_Some (open_chuong G) ->
  is_Some (open_chuong (grow G raw))
  /\ preambles (value (grow G raw)) = preambles (value G).
Proof.
  intros Hc.
  destruct (grow_roots G raw) as [-> | [(c & t & ds & cc & ->) |
    [(c & t & ds & cc & ds' & cc' & R & -> & ->) | (Hn & n & line & ->)]]].
  - done.
  - split; [by eexists|]. rewrite value_cons. unfold preambles.
    rewrite flat_map_app. simpl. by rewrite app_nil_r.
  - split; [by eexists|]. rewrite !value_cons. unfold preambles.
    rewrite !flat_map_app. done.
  - rewrite Hn in Hc. by destruct Hc.
Qed.

Lemma preambles_grows lines : forall G,
  is_Some (open_chuong G) ->
  is_Some (open_chuong (grows G lines))
  /\ preambles (value (grows G lines)) = preambles (value G).
Proof.
  induction lines as [|l ls IH]; intros G Hc; [done|].
  destruct (preambles_grow G l Hc) as [Hc' Hp'].
  destruct (IH (grow G l) Hc') as [Hc'' Hp'']. split; [done|].
  unfold grows in *. simpl. congruence.
Qed.

(** The state reached by the loop stands for the tree grown from the
    lines read. *)
Lemma steps_initial lines st :
  steps initial lines = Ok st -> stands st (grows [] lines).
Proof.
  intros H. destruct (steps_stands lines initial [] stands_initial) as (st' & H' & Hst).
  congruence.
Qed.

(** Claim C10. In the tree of every text the Preamble nodes come before
    the chapters; and once the loop has a chapter open, whatever lines
    follow, a chapter stays open and the Preamble nodes stay as they
    were. *)
Theorem preambles_before_chuongs :
  (forall text, exists ps cs,
      parse_text text = Ok (ps ++ cs)
      /\ forallb is_preamble ps = true /\ forallb is_chuong cs = true)
  /\ (forall lines1 lines2 st1,
        steps initial lines1 = Ok st1 -> is_Some (current_chuong st1) ->
        exists st2 t1 t2,
          steps st1 lines2 = Ok st2 /\ is_Some (current_chuong st2)
          /\ read_hierarchy st1 = Ok t1 /\ read_hierarchy st2 = Ok t2
          /\ preambles t2 = preambles t1).
Proof.
  split.
  - intros text.
    destruct (ordered_value (grows [] (split NL text))) as (ps & cs & Hv & Hps & Hcs).
    { by apply ordered_grows. }
    exists ps, cs. rewrite <- Hv. split; [apply parse_text_grows | done].
  - intros lines1 lines2 st1 H1%steps_initial Hc.
    destruct (steps_stands lines2 st1 _ H1) as (st2 & H2 & Hst2).
    rewrite (st_chuong _ _ H1) in Hc.
    destruct (preambles_grows lines2 _ Hc) as [Hc2 Hp].
    exists st2, (value (grows [] lines1)), (value (grows (grows [] lines1) lines2)).
    split; [done|]. split; [by rewrite (st_chuong _ _ Hst2)|].
    split; [by apply read_stands|]. split; [by apply read_stands|]. done.
Qed.


(** ** Plain lines *)

Lemma plain_appended_grow G line :
  is_Some (open_chuong G) \/ G = [] ->
  plain_appended line (value G) (value (grow_plain G line)).
Proof.
  intros Ho. unfold grow_plain.
  destruct G as [|[p pt | c t [|[d l ct [|[k kl kct [|[m ml mct] ms]] ks]] ds] cc] R];
    lazy beta iota zeta; rewrite ?value_cons.
  - apply to_new_preamble.
  - by destruct Ho as [[? [=]] | [=]].
  - apply to_chuong.
  - simpl. apply to_dieu.
  - simpl. apply to_khoan.
  - simpl. apply to_muc.
Qed.

(** A line of the clause pattern with no article open, or of the point
    pattern with no clause open, goes the way of a plain line. *)
Lemma step_fallback st G raw :
  stands st G -> strip raw <> [] ->
  (is_Some (re_match KHOAN_PATTERN (strip raw)) /\ current_dieu st = None)
  \/ (is_Some (re_match MUC_PATTERN (strip raw)) /\ current_khoan st = None) ->
  step st raw = plain_content st (strip raw)
  /\ grow G raw = grow_plain G (strip raw).
Proof.
  intros Hst Hne Hcase.
  assert (re_match CHUONG_PATTERN (strip raw) = None
          /\ re_match DIEU_PATTERN (strip raw) = None) as [Hc Hd].
  { destruct Hcase as [[H _] | [H _]].
    - by apply khoan_line_not_header.
    - apply muc_line_not_header in H. tauto. }
  destruct st as [h hi cc cd ck cm]. destruct Hst as [_ _ _ Hdi Hkh _ _]. simpl in *.
  unfold step, grow, khoan_muc_or_plain, grow_khoan_muc_or_plain.
  rewrite bool_decide_eq_false_2 by done. rewrite Hc, Hd.
  destruct Hcase as [[Hm ->] | [Hm ->]].
  - destruct Hm as [mk ->].
    destruct G as [|[p pt | c t [|[d l ct ks] ds] ct'] R]; simpl in *; try done; subst ck;
      by destruct (re_match MUC_PATTERN (strip raw)).
  - destruct (muc_line_not_header _ Hm) as (_ & _ & ->). destruct Hm as [mm ->].
    destruct G as [|[p pt | c t [|[d l ct [|[k kl kct ms] ks]] ds] ct'] R];
      simpl in *; try done; by destruct cd.
Qed.

(** In a state the loop can reach, a line of the clause pattern read
    while no article is open, and a line of the point pattern read while
    no clause is open, take the way of a plain line: the turn of the loop
    is [plain_content] and the tree has the same structural nodes after
    the line as before it. When a chapter is open, or the tree has no
    node yet, the text goes where the specification sends it. *)
Lemma fallback_line_is_plain (lines : list pystr) (st : state) (raw : pystr) :
  steps initial lines = Ok st ->
  strip raw <> [] ->
  (is_Some (re_match KHOAN_PATTERN (strip raw)) /\ current_dieu st = None)
  \/ (is_Some (re_match MUC_PATTERN (strip raw)) /\ current_khoan st = None) ->
  exists st' t t',
    step st raw = Ok st' /\ plain_content st (strip raw) = Ok st'
    /\ read_hierarchy st = Ok t /\ read_hierarchy st' = Ok t'
    /\ headers t' = headers t
    /\ (is_Some (current_chuong st) \/ t = [] -> plain_appended (strip raw) t t').
Proof.
  intros Hst%steps_initial Hne Hcase.
  destruct (step_fallback st _ raw Hst Hne Hcase) as [Hstep Hgrow].
  destruct (step_stands st _ raw Hst) as (st' & Hst' & Hstands').
  exists st', (value (grows [] lines)), (value (grow (grows [] lines) raw)).
  split; [done|]. split; [congruence|].
  split; [by apply read_stands|]. split; [by apply read_stands|].
  rewrite Hgrow. split; [apply headers_grow_plain|].
  intros Ho. apply plain_appended_grow.
  rewrite (st_chuong _ _ Hst) in Ho. destruct Ho as [Ho | Ho]; [by left | right].
  destruct (grows [] lines) as [|g G]; [done|].
  rewrite value_cons in Ho. by destruct (value G).
Qed.

(** Claim C5 fails on the code. The line "1. Khoản mồ côi" is of the
    clause pattern and is read while no article is open, after the line
    "Lời nói đầu" has made the Preamble node. No clause node comes of
    it, but the line is not appended to the Preamble node either: it
    gets a Preamble node of its own, where the claim has the one
    Preamble node hold "Lời nói đầu 1. Khoản mồ côi". *)
Theorem orphan_clause_second_preamble :
  is_Some (re_match KHOAN_PATTERN (py "1. Khoản mồ côi"))
  /\ (exists st, steps initial [py "Lời nói đầu"] = Ok st
                 /\ current_dieu st = None
                 /\ read_hierarchy st = Ok [EPreamble (py "Lời nói đầu")])
  /\ parse_text (py "Lời nói đầu\n1. Khoản mồ côi")
     = Ok [EPreamble (py "Lời nói đầu"); EPreamble (py "1. Khoản mồ côi")]
  /\ headers [EPreamble (py "Lời nói đầu"); EPreamble (py "1. Khoản mồ côi")] = []
  /\ plain_appended (py "1. Khoản mồ côi")
       [EPreamble (py "Lời nói đầu")]
       [EPreamble (py "Lời nói đầu" ++ py " " ++ py "1. Khoản mồ côi")]
  /\ ~ plain_appended (py "1. Khoản mồ côi")
         [EPreamble (py "Lời nói đầu")]
         [EPreamble (py "Lời nói đầu"); EPreamble (py "1. Khoản mồ côi")].
Proof.
  split; [vm_compute; eauto|].
  split; [eexists; split; [by vm_compute|]; split; by vm_compute|].
  split; [by vm_compute|]. split; [done|].
  split; [apply (to_preamble _ [])|].
  intros H. inversion H as [| t p H1 H2 | t title ct H1 H2 | t title ct ds l c H1 H2
    | t title ct ds l c ks kl kc H1 H2 | t title ct ds l c ks kl kc ms ml mc H1 H2];
    apply (f_equal length) in H1, H2; rewrite length_app in H1, H2;
    cbn [length] in H1, H2; lia.
Qed.

(** While no chapter is open, every line that is not blank and is no
    chapter or article header gets a Preamble node of its own at the end
    of the roots: the membership test of line 92 never fails. *)
Lemma line_without_chuong (lines : list pystr) (st : state) (raw : pystr) :
  steps initial lines = Ok st ->
  current_chuong st = None ->
  strip raw <> [] ->
  re_match CHUONG_PATTERN (strip raw) = None ->
  re_match DIEU_PATTERN (strip raw) = None ->
  exists st' t,
    step st raw = Ok st' /\ read_hierarchy st = Ok t
    /\ read_hierarchy st' = Ok (t ++ [EPreamble (strip raw)]).
Proof.
  intros Hst%steps_initial Hcc Hne Hc Hd.
  destruct (step_stands st _ raw Hst) as (st' & Hstep & Hst').
  exists st', (value (grows [] lines)). split; [done|].
  split; [by apply read_stands|]. rewrite (read_stands _ _ Hst'). f_equal.
  rewrite (st_chuong _ _ Hst) in Hcc.
  unfold grow, grow_khoan_muc_or_plain, grow_plain.
  rewrite bool_decide_eq_false_2 by done. rewrite Hc, Hd.
  destruct (grows [] lines) as [|[p pt | c t ds cc] R]; [| |done];
    by destruct (re_match KHOAN_PATTERN (strip raw)),
                (re_match MUC_PATTERN (strip raw)).
Qed.


(** ** The renderer *)

Lemma foldl_render_muc ia ip ms : forall content,
  foldl (render_muc ia ip) content ms
  = content ++ flat_map (fun m => replace (py "Muc ") ia (muc_Muc m) ++ py ") " ++ ip
                                   ++ muc_Content m ++ [NL]) ms.
Proof.
  induction ms as [|m ms IH]; intros content; cbn [foldl flat_map].
  - by rewrite app_nil_r.
  - rewrite IH. unfold render_muc. by rewrite <- !app_assoc.
Qed.

Lemma render_khoan_cited d k content ip :
  render_khoan true (py "Khoản ") (py "Điểm ") (clause_prefix d) (content, ip) k
  = (content ++ clause_line d k ++ flat_map (point_line d k) (khoan_Muc k),
     point_prefix d k).
Proof.
  unfold render_khoan. cbv zeta.
  change (replace (py "Khoan ") (py "Khoản ") (khoan_Khoan k)) with (clause_label k).
  change (clause_label k ++ py " " ++ clause_prefix d ++ py " ") with (point_prefix d k).
  f_equal.
  destruct (khoan_Muc k) as [|m ms] eqn:E.
  - cbn [length Nat.ltb Nat.leb flat_map]. unfold clause_line.
    by rewrite app_nil_r, <- ?app_assoc.
  - change (Nat.ltb 0 (length (m :: ms))) with true. cbv iota.
    rewrite foldl_render_muc. unfold clause_line, point_line, point_label.
    by rewrite <- !app_assoc.
Qed.

Lemma foldl_render_khoan_cited d ks : forall content ip,
  (foldl (render_khoan true (py "Khoản ") (py "Điểm ") (clause_prefix d)) (content, ip) ks).1
  = content ++ flat_map (fun k => clause_line d k ++ flat_map (point_line d k) (khoan_Muc k)) ks.
Proof.
  induction ks as [|k ks IH]; intros content ip; cbn [foldl flat_map].
  - by rewrite app_nil_r.
  - rewrite render_khoan_cited, IH. by rewrite <- !app_assoc.
Qed.

(** Claim C1, amended. With citations expanded the text of an article is
    its header line followed, clause by clause, by the clause line and
    its point lines; a point line is the point label, a closing
    parenthesis and a space, the point prefix and the content, where the
    point prefix is the label of the clause line, a space, the article
    prefix and a space. For the tree of the first scenario the clause
    line is "Khoản 1. Điều 1 Nội dung A" and the point line is
    "Điểm a) Khoản 1 Điều 1  Chi tiết", each with its line break. *)
Theorem cited_text_lines (d : dieu) :
  get_text_from_structure d true = cited_lines d
  /\ parse_text scenario_text = Ok [EChuong (py "Chuong 0") [scenario_dieu] None]
  /\ clause_line scenario_dieu scenario_khoan = py "Khoản 1. Điều 1 Nội dung A\n"
  /\ point_line scenario_dieu scenario_khoan scenario_muc
     = py "Điểm a) Khoản 1 Điều 1  Chi tiết\n".
Proof.
  split; [|by vm_compute].
  unfold get_text_from_structure, cited_lines.
  exact (foldl_render_khoan_cited d (dieu_Khoan d) (head_line d) []).
Qed.

(** Claim C1 as stated fails on its own example: the rendered text does not
    end with a point line that has a full stop after the clause label. *)
Lemma cited_point_line_has_no_dot :
  parse_text scenario_text = Ok [EChuong (py "Chuong 0") [scenario_dieu] None]
  /\ get_text_from_structure scenario_dieu true
     = py "Điều 1. Phạm vi\nKhoản 1. Điều 1 Nội dung A\nĐiểm a) Khoản 1 Điều 1  Chi tiết\n"
  /\ ~ exists before,
         get_text_from_structure scenario_dieu true
         = before ++ py "Điểm a) Khoản 1. Điều 1  Chi tiết\n".
Proof.
  split; [by vm_compute|]. split; [by vm_compute|].
  intros [before H]. apply (f_equal (@rev cp)) in H. rewrite rev_app_distr in H.
  apply (f_equal (take 30)) in H. vm_compute in H. discriminate H.
Qed.

(** Claim C6. The first scenario parses to one default chapter with one
    article "Dieu 1" of content "Phạm vi", one clause "Khoan 1" of content
    "Nội dung A" and one point "Muc a" of content "Chi tiết"; without
    citations the article renders to the three lines of the input, each
    with its line break. *)
Theorem scenario_parsed_and_rendered :
  parse_text scenario_text
  = Ok [EChuong (py "Chuong 0")
          [Dieu (py "Dieu 1") (py "Phạm vi")
             [Khoan (py "Khoan 1") (py "Nội dung A") [Muc (py "Muc a") (py "Chi tiết")]]]
          None]
  /\ get_text_from_structure scenario_dieu false
     = py "Điều 1. Phạm vi\n1. Nội dung A\na) Chi tiết\n".
Proof. split; by vm_compute. Qed.

(** Claim C2 fails on the code: two plain lines before any chapter or
    article give two Preamble nodes. *)
Theorem preamble_node_per_line :
  parse_text (py "Lời nói đầu\nCăn cứ Hiến pháp")
  = Ok [EPreamble (py "Lời nói đầu"); EPreamble (py "Căn cứ Hiến pháp")].
Proof. by vm_compute. Qed.


(** ** Trimming *)

Lemma last_rev_head {A} (l : list A) : last (rev l) = head l.
Proof. destruct l; [done|]. simpl. apply last_snoc. Qed.

Lemma lstrip_by_spec p s :
  exists a, s = a ++ lstrip_by p s /\ Forall (fun x => p x = true) a
            /\ forall x, head (lstrip_by p s) = Some x -> p x = false.
Proof.
  induction s as [|c s (a & Hs & Ha & Hh)]; simpl.
  - exists []. by repeat split.
  - destruct (p c) eqn:E.
    + exists (c :: a). simpl. rewrite <- Hs. repeat split; [by constructor | done].
    + exists []. repeat split; [done|]. by intros x [= <-].
Qed.

Lemma rstrip_by_spec p s :
  exists b, s = rstrip_by p s ++ b /\ Forall (fun x => p x = true) b
            /\ forall x, last (rstrip_by p s) = Some x -> p x = false.
Proof.
  unfold rstrip_by. destruct (lstrip_by_spec p (rev s)) as (a & Hs & Ha & Hh).
  exists (rev a). split; [|split].
  - rewrite <- rev_app_distr, <- Hs. by rewrite rev_involutive.
  - apply Forall_forall. intros x Hx%list_elem_of_In%in_rev%list_elem_of_In.
    by apply (proj1 (Forall_forall _ _) Ha).
  - intros x Hx. apply Hh. by rewrite <- last_rev_head.
Qed.

(** What [strip] and [strip(chars)] leave: the text between the longest
    run of stripped code points at the start and the longest at the end. *)
Lemma strip_by_spec p s :
  exists a b, s = a ++ strip_by p s ++ b
              /\ Forall (fun x => p x = true) a /\ Forall (fun x => p x = true) b
              /\ (forall x, head (strip_by p s) = Some x -> p x = false)
              /\ (forall x, last (strip_by p s) = Some x -> p x = false).
Proof.
  unfold strip_by.
  destruct (lstrip_by_spec p s) as (a & Hs & Ha & Hh).
  destruct (rstrip_by_spec p (lstrip_by p s)) as (b & Hs' & Hb & Hl).
  exists a, b. split; [by rewrite <- Hs'|]. repeat split; try done.
  intros x Hx. apply Hh. rewrite Hs'. rewrite head_app, Hx. done.
Qed.

Lemma one_of_dot_space x : one_of (py ". ") x = true <-> dot_or_space x.
Proof.
  unfold dot_or_space. change (py ". ") with [46; 32]. unfold one_of. simpl.
  destruct (N.eqb_spec x 46), (N.eqb_spec x 32); simpl; split; intros; try done; tauto.
Qed.

Lemma dieu_match_nonempty line m : re_match DIEU_PATTERN line = Some m -> line <> [].
Proof. by intros H ->. Qed.

(** The tree after an article header. *)
Lemma grow_dieu G raw m :
  re_match CHUONG_PATTERN (strip raw) = None ->
  re_match DIEU_PATTERN (strip raw) = Some m ->
  exists t title ds ct,
    value (grow G raw)
    = t ++ [EChuong title
              (ds ++ [Dieu (py "Dieu " ++ group (strip raw) m 1)
                           (dieu_content_of (strip raw) m) []]) ct].
Proof.
  intros Hc Hd. unfold grow.
  rewrite bool_decide_eq_false_2 by (by eapply dieu_match_nonempty).
  rewrite Hc, Hd.
  destruct G as [|[p pt | c t ds cc] R]; rewrite value_cons.
  - by exists (value []), (py "Chuong 0"), [], None.
  - by eexists (value (_ :: _)), (py "Chuong 0"), [], None.
  - by exists (value R), t, (rev (map value_dieu ds)), cc.
Qed.

(** Claim C7, amended. For a line taken as an article header in a state
    the loop can reach, the new article is the last of the last chapter,
    has no clause, and its content is what follows the matched prefix
    with the full stops and spaces at both its ends removed and then the
    white space at both ends of what is left. *)
Theorem dieu_content_trimmed (lines : list pystr) (st : state) (raw : pystr)
    (m : rmatch) :
  steps initial lines = Ok st ->
  re_match CHUONG_PATTERN (strip raw) = None ->
  re_match DIEU_PATTERN (strip raw) = Some m ->
  let rest := drop (m_end m) (strip raw) in
  let inner := strip_chars (py ". ") rest in
  let content := strip inner in
  (exists st' t title ds ct,
      step st raw = Ok st'
      /\ read_hierarchy st'
         = Ok (t ++ [EChuong title
                       (ds ++ [Dieu (py "Dieu " ++ group (strip raw) m 1) content []])
                       ct]))
  /\ (exists a b, rest = a ++ inner ++ b
                  /\ Forall dot_or_space a /\ Forall dot_or_space b
                  /\ (forall x, head inner = Some x \/ last inner = Some x ->
                                ~ dot_or_space x))
  /\ (exists a b, inner = a ++ content ++ b
                  /\ Forall (fun x => isspace x = true) a
                  /\ Forall (fun x => isspace x = true) b
                  /\ (forall x, head content = Some x \/ last content = Some x ->
                                isspace x = false)).
Proof.
  intros Hst%steps_initial Hc Hd rest inner content. split; [|split].
  - destruct (step_stands st _ raw Hst) as (st' & Hstep & Hst').
    destruct (grow_dieu (grows [] lines) raw m Hc Hd) as (t & title & ds & ct & Hv).
    exists st', t, title, ds, ct. split; [done|].
    rewrite (read_stands _ _ Hst'). by rewrite Hv.
  - destruct (strip_by_spec (one_of (py ". ")) rest) as (a & b & Hs & Ha & Hb & Hh & Hl).
    exists a, b. split; [done|].
    split; [|split].
    + eapply Forall_impl; [exact Ha|]. intros x. apply one_of_dot_space.
    + eapply Forall_impl; [exact Hb|]. intros x. apply one_of_dot_space.
    + intros x [Hx | Hx] Hds%one_of_dot_space.
      * apply Hh in Hx. congruence.
      * apply Hl in Hx. congruence.
  - destruct (strip_by_spec isspace inner) as (a & b & Hs & Ha & Hb & Hh & Hl).
    exists a, b. repeat split; try done. intros x [Hx | Hx]; auto.
Qed.

(** Claim C7 as stated fails: a full stop at the end of the line is
    removed too. *)
Lemma dieu_content_loses_final_dot :
  re_match CHUONG_PATTERN (py "Điều 1. Phạm vi.") = None
  /\ re_match DIEU_PATTERN (py "Điều 1. Phạm vi.") = Some (RMatch 6 [(1, (5, 6))%nat])
  /\ parse_text (py "Điều 1. Phạm vi.")
     = Ok [EChuong (py "Chuong 0") [Dieu (py "Dieu 1") (py "Phạm vi") []] None]
  /\ spec_dieu_content (py "Điều 1. Phạm vi.") (RMatch 6 [(1, (5, 6))%nat])
     = py "Phạm vi."
  /\ dieu_content_of (py "Điều 1. Phạm vi.") (RMatch 6 [(1, (5, 6))%nat])
     <> spec_dieu_content (py "Điều 1. Phạm vi.") (RMatch 6 [(1, (5, 6))%nat]).
Proof. repeat split; by vm_compute. Qed.

(** ** The truncation rules *)




(** ** Checking occurrences by running the matcher *)

Lemma lang_by_run r pos w rest :
  is_Some (run r (accept_at rest) pos (w ++ rest) []) -> lang r pos w rest.
Proof.
  intros [m (w' & rest' & c' & Heq & Hl & Hk)%run_sound]. unfold accept_at in Hk.
  case_bool_decide; [subst rest'|done]. apply app_inv_tail in Heq as ->. done.
Qed.

Lemma none_before_no_occurrence r s n :
  none_before r s n = true -> forall j, (j < n)%nat -> ~ occurs_at r s j.
Proof.
  unfold none_before. rewrite forallb_forall. intros H j Hj (w & rest & Hd & _ & Hl).
  specialize (H j). rewrite in_seq in H. specialize (H ltac:(lia)).
  destruct (run r accept j (drop j s) []) eqn:E; [done|].
  by destruct (run_None_no_match r j _ w rest E Hd).
Qed.

Lemma no_search_no_occurrence r s : re_search r s = None -> ~ occurs r s.
Proof. intros H Ho%re_search_occurs. rewrite H in Ho. by destruct Ho. Qed.

(** ** The scenarios *)



Lemma heading_on_earlier_line_stays :
  parse_text (py "Điều 1. A\nMục 2. B\n1. C")
  = Ok [EChuong (py "Chuong 0") [Dieu (py "Dieu 1") (py "A Mục 2. B") [Khoan (py "Khoan 1") (py "C") []]] None]
  /\ get_text_from_structure (Dieu (py "Dieu 1") (py "A Mục 2. B") [Khoan (py "Khoan 1") (py "C") []]) false
     = py "Điều 1. A Mục 2. B\n1. C\n"
  /\ postprocess (py "Điều 1. A Mục 2. B\n1. C\n") = py "Điều 1. A Mục 2. B\n1. C\n"
  /\ cut_enactment (py "Điều 1. A Luật này được Quốc hội B\n1. C\n") = py "Điều 1. A \n".
Proof. repeat split; by vm_compute. Qed.


(** A clause line under a chapter with no article goes to the free
    content of the chapter. *)
Lemma fallback_line_in_chuong :
  exists st' t t',
    step (State [DChuong (py "Chương I") [] None] [O] (Some O) None None None)
         (py "1. Nội dung") = Ok st'
    /\ plain_content (State [DChuong (py "Chương I") [] None] [O] (Some O) None None None)
                     (strip (py "1. Nội dung")) = Ok st'
    /\ read_hierarchy (State [DChuong (py "Chương I") [] None] [O] (Some O) None None None)
       = Ok t
    /\ read_hierarchy st' = Ok t'
    /\ headers t' = headers t
    /\ plain_appended (strip (py "1. Nội dung")) t t'.
Proof.
  destruct (fallback_line_is_plain [py "Chương I"]
              (State [DChuong (py "Chương I") [] None] [O] (Some O) None None None)
              (py "1. Nội dung")) as (st' & t & t' & H1 & H2 & H3 & H4 & H5 & H6).
  - reflexivity.
  - discriminate.
  - left. split; [vm_compute; eauto | reflexivity].
  - exists st', t, t'. repeat split; try done. apply H6. left. by eexists.
Qed.

Lemma preambles_before_chuongs_witness :
  exists st2 t1 t2,
    steps (State [DChuong (py "Chương I") [] None] [O] (Some O) None None None)
          [py "Điều khoản chung"] = Ok st2
    /\ is_Some (current_chuong st2)
    /\ read_hierarchy (State [DChuong (py "Chương I") [] None] [O] (Some O) None None None)
       = Ok t1
    /\ read_hierarchy st2 = Ok t2 /\ preambles t2 = preambles t1.
Proof.
  apply (proj2 preambles_before_chuongs [py "Chương I"]).
  - reflexivity.
  - by eexists.
Defined.

Lemma dieu_content_trimmed_witness :
  exists st' t title ds ct,
    step initial (py "Điều 1. Phạm vi.") = Ok st'
    /\ read_hierarchy st'
       = Ok (t ++ [EChuong title (ds ++ [Dieu (py "Dieu 1") (py "Phạm vi") []]) ct]).
Proof.
  apply (dieu_content_trimmed [] initial (py "Điều 1. Phạm vi.") (RMatch 6 [(1, (5, 6))%nat]));
    reflexivity.
Defined.

(** ** The turns of the loop *)

Lemma grow_blank G raw : strip raw = [] -> grow G raw = G.
Proof. intros H. unfold grow. by rewrite bool_decide_eq_true_2. Qed.

Lemma grow_turn G raw : strip raw <> [] -> turn (strip raw) G (grow G raw).
Proof.
  intros Hne. unfold grow, grow_khoan_muc_or_plain.
  rewrite bool_decide_eq_false_2 by done.
  destruct (re_match CHUONG_PATTERN (strip raw)) as [mc|] eqn:Ec; [by econstructor|].
  destruct (re_match DIEU_PATTERN (strip raw)) as [md|] eqn:Ed.
  { destruct G as [|[p pt | c t ds cc] R]; by econstructor. }
  destruct (re_match KHOAN_PATTERN (strip raw)) as [mk|] eqn:Ek.
  { destruct G as [|[p pt | c t [|[d l ct ks] ds] cc] R];
      try (destruct (re_match MUC_PATTERN (strip raw)); by apply turn_plain).
    by econstructor. }
  destruct (re_match MUC_PATTERN (strip raw)) as [mm|] eqn:Em; [|by apply turn_plain].
  destruct G as [|[p pt | c t [|[d l ct [|[k kl kct ms] ks]] ds] cc] R];
    try by apply turn_plain.
  by econstructor.
Qed.

(** A property of trees that every turn keeps holds of the tree of every
    text. *)
Lemma grows_invariant (P : list groot -> Prop) (lines : list pystr) :
  (forall G raw, raw ∈ lines -> P G -> strip raw <> [] -> turn (strip raw) G (grow G raw) ->
                 P (grow G raw)) ->
  forall G, P G -> P (grows G lines).
Proof.
  induction lines as [|l ls IH]; intros Hstep G HG; [done|].
  unfold grows. simpl. apply IH.
  - intros G' raw Hin. apply Hstep. by right.
  - destruct (decide (strip l = [])) as [E|E].
    + by rewrite grow_blank.
    + apply Hstep; [by left | done | done | by apply grow_turn].
Qed.

(** ** Blank lines and surrounding white space *)

Lemma lstrip_by_id p s :
  (forall x, head s = Some x -> p x = false) -> lstrip_by p s = s.
Proof. destruct s as [|c s]; [done|]. simpl. intros H. by rewrite (H c). Qed.

Lemma rstrip_by_id p s :
  (forall x, last s = Some x -> p x = false) -> rstrip_by p s = s.
Proof.
  intros H. unfold rstrip_by. rewrite lstrip_by_id; [apply rev_involutive|].
  intros x Hx. apply H. rewrite <- (rev_involutive s). by rewrite last_rev_head.
Qed.

Lemma strip_by_id p s :
  (forall x, head s = Some x -> p x = false) ->
  (forall x, last s = Some x -> p x = false) -> strip_by p s = s.
Proof. intros Hh Hl. unfold strip_by. rewrite lstrip_by_id by done. by apply rstrip_by_id. Qed.

Lemma strip_by_idemp p s : strip_by p (strip_by p s) = strip_by p s.
Proof.
  destruct (strip_by_spec p s) as (a & b & _ & _ & _ & Hh & Hl). by apply strip_by_id.
Qed.

Lemma step_strip st raw : step st (strip raw) = step st raw.
Proof. unfold step, strip. by rewrite strip_by_idemp. Qed.

Lemma step_blank st raw : strip raw = [] -> step st raw = Ok st.
Proof. intros H. unfold step. by rewrite bool_decide_eq_true_2. Qed.

Lemma steps_nonblank lines : forall st, steps st (nonblank lines) = steps st lines.
Proof.
  unfold nonblank.
  induction lines as [|l ls IH]; intros st; [done|].
  simpl. destruct (decide (strip l = [])) as [E|E].
  - rewrite filter_cons_False by (by intros ?). rewrite step_blank by done. simpl. apply IH.
  - rewrite filter_cons_True by done. simpl. rewrite step_strip.
    destruct (step st l) as [st'|e]; simpl; [apply IH | done].
Qed.

(** Blank lines and the white space around a line never matter: two
    texts whose lines, trimmed and with the blank ones left out, are the
    same give the same result, tree or error. *)
Theorem blank_lines_and_indentation_ignored (text1 text2 : pystr) :
  nonblank (split NL text1) = nonblank (split NL text2) ->
  parse_text text1 = parse_text text2.
Proof.
  intros H. unfold parse_text.
  by rewrite <- (steps_nonblank (split NL text1)), H, steps_nonblank.
Qed.

Lemma blank_lines_and_indentation_ignored_witness :
  parse_text (py "\n  Điều 1. Phạm vi \n\n   1. Nội dung A\n \n")
  = parse_text (py "Điều 1. Phạm vi\n1. Nội dung A").
Proof.
  apply blank_lines_and_indentation_ignored. vm_compute. reflexivity.
Defined.

(** ** What the groups of a match hold *)

(** A match found by the matcher, with the spans of the groups it went
    through put before the spans it started with. *)
Lemma run_sound_groups r : forall k pos s c m,
  run r k pos s c = Some m ->
  exists w rest add, s = w ++ rest /\ lang r pos w rest
    /\ k (pos + length w)%nat rest (add ++ c) = Some m
    /\ Forall (fun g => g.1 ∈ groups_of r) add.
Proof.
  induction r as [| |p|p|p|p|r IH|r1 IH1 r2 IH2|r1 IH1 r2 IH2|n r IH];
    intros k pos s c m H.
  1-6: apply run_sound in H as Hs; simpl in H.
  - destruct (Nat.eqb_spec pos 0) as [->|]; [|done].
    exists [], s, []. simpl. auto.
  - exists [], s, []. rewrite Nat.add_0_r. simpl.
    destruct s as [|x [|y s]]; [auto| |done].
    destruct (N.eqb_spec x NL) as [->|]; [|done]. auto.
  - apply one_sound in H as (x & s' & -> & Hp & Hk).
    exists [x], s', []. simpl. rewrite Nat.add_1_r. eauto 6.
  - apply star_sound in H as (w & rest & -> & Hw & Hk). exists w, rest, []. auto.
  - apply one_sound in H as (x & s' & -> & Hp & Hk).
    apply star_sound in Hk as (w & rest & -> & Hw & Hk).
    exists (x :: w), rest, []. simpl. rewrite Nat.add_succ_comm in Hk. auto.
  - apply one_sound in H as (x & s' & -> & Hp & Hk).
    apply star_lazy_sound in Hk as (w & rest & -> & Hw & Hk).
    exists (x :: w), rest, []. simpl. rewrite Nat.add_succ_comm in Hk. auto.
  - simpl in H. apply orelse_Some in H as [H | [_ H]].
    + apply IH in H as (w & rest & add & -> & Hw & Hk & Ha). exists w, rest, add. simpl. auto.
    + exists [], s, []. rewrite Nat.add_0_r. simpl. auto.
  - simpl in H. apply IH1 in H as (w1 & rest1 & a1 & -> & Hw1 & H & Ha1).
    apply IH2 in H as (w2 & rest & a2 & -> & Hw2 & Hk & Ha2).
    exists (w1 ++ w2), rest, (a2 ++ a1).
    rewrite <- !app_assoc, length_app, Nat.add_assoc.
    split; [done|]. split; [simpl; eauto|]. split; [done|].
    simpl. apply Forall_app. split; eapply Forall_impl; eauto; simpl; intros g Hg;
      apply elem_of_app; auto.
  - simpl in H. apply orelse_Some in H as [H | [_ H]].
    + apply IH1 in H as (w & rest & add & -> & Hw & Hk & Ha). exists w, rest, add.
      simpl. repeat split; auto. eapply Forall_impl; eauto; simpl; intros g Hg;
      apply elem_of_app; auto.
    + apply IH2 in H as (w & rest & add & -> & Hw & Hk & Ha). exists w, rest, add.
      simpl. repeat split; auto. eapply Forall_impl; eauto; simpl; intros g Hg;
      apply elem_of_app; auto.
  - simpl in H. apply IH in H as (w & rest & add & -> & Hw & Hk & Ha).
    exists w, rest, ((n, (pos, pos + length w)%nat) :: add). simpl.
    repeat split; auto. constructor; [left|].
    eapply Forall_impl; eauto; simpl; intros g Hg. by right.
Qed.

(** The span of a group is the first of its number in the list. *)
Lemma find_group_skip (n : nat) (add c : captures) (ks : list nat) :
  Forall (fun g => g.1 ∈ ks) add -> n ∉ ks ->
  List.find (fun g => Nat.eqb (fst g) n) (add ++ c)
  = List.find (fun g => Nat.eqb (fst g) n) c.
Proof.
  induction 1 as [|g add Hg _ IH]; intros Hn; [done|].
  simpl. destruct (Nat.eqb_spec g.1 n) as [E|_]; [|by apply IH].
  destruct Hn. by rewrite <- E.
Qed.


(** A group, and what the groups after it leave of its span. *)
Lemma run_Grp_sound n r k pos s c m :
  run (Grp n r) k pos s c = Some m ->
  exists w rest add, s = w ++ rest /\ lang r pos w rest
    /\ k (pos + length w)%nat rest ((n, (pos, (pos + length w)%nat)) :: add ++ c) = Some m
    /\ Forall (fun g => g.1 ∈ groups_of r) add.
Proof.
  simpl. intros H. apply run_sound_groups in H as (w & rest & add & -> & Hl & Hk & Ha).
  by exists w, rest, add.
Qed.

Lemma run_Cat_sound r1 r2 k pos s c m :
  run (r1 · r2) k pos s c = Some m ->
  exists w rest add, s = w ++ rest /\ lang r1 pos w rest
    /\ run r2 k (pos + length w)%nat rest (add ++ c) = Some m
    /\ Forall (fun g => g.1 ∈ groups_of r1) add.
Proof. simpl. apply run_sound_groups. Qed.

Lemma Forall_in_nil {A} (f : A -> nat) (add : list A) :
  Forall (fun g => f g ∈ @nil nat) add -> add = [].
Proof. destruct 1 as [|g add Hg _]; [done|]. by apply elem_of_nil in Hg. Qed.

Lemma group_first line n a b c m (ks : list nat) add cs pos :
  accept pos c (add ++ (n, (a, b)) :: cs) = Some m ->
  Forall (fun g => g.1 ∈ ks) add -> n ∉ ks ->
  group line m n = take (b - a) (drop a line).
Proof.
  intros [= <-] Ha Hn. unfold group. simpl.
  rewrite (find_group_skip n add _ ks Ha Hn). simpl. by rewrite Nat.eqb_refl.
Qed.

Lemma group_last line n a b c m cs pos :
  accept pos c ((n, (a, b)) :: cs) = Some m ->
  group line m n = take (b - a) (drop a line).
Proof. intros [= <-]. unfold group. simpl. by rewrite Nat.eqb_refl. Qed.

Lemma span_of {A} (s pre w rest : list A) (a b : nat) :
  s = pre ++ w ++ rest -> a = length pre -> b = (a + length w)%nat ->
  take (b - a) (drop a s) = w.
Proof.
  intros -> -> ->. rewrite drop_app_length.
  replace (length pre + length w - length pre)%nat with (length w) by lia.
  by rewrite take_app_length.
Qed.

(** The first group of a match of the article pattern. *)
Lemma dieu_group line m :
  re_match DIEU_PATTERN line = Some m -> dieu_number (group line m 1).
Proof.
  unfold re_match, DIEU_PATTERN. intros H.
  apply run_Cat_sound in H as (w0 & s0 & a0 & -> & [-> _] & H & _).
  apply run_Cat_sound in H as (w1 & s1 & a1 & -> & _ & H & _).
  apply run_Cat_sound in H as (w2 & s2 & a2 & -> & _ & H & _).
  apply run_Grp_sound in H as (w & rest & a3 & -> & Hl & H & _).
  rewrite (group_last _ _ _ _ _ _ _ _ H).
  cbn [lang] in Hl. destruct Hl as (ds & l & -> & Hds & Hl).
  rewrite (span_of _ (w1 ++ w2) (ds ++ l) rest);
    [| by rewrite <- !app_assoc | rewrite length_app; simpl; lia | done].
  exists ds, l. split; [done|]. split; [done|].
  destruct Hl as [-> | (x & -> & Hx)]; eauto.
Qed.

(** The first group of a match of the clause pattern. *)
Lemma khoan_group line m :
  re_match KHOAN_PATTERN line = Some m -> decimals (group line m 1).
Proof.
  unfold re_match, KHOAN_PATTERN. intros H.
  apply run_Cat_sound in H as (w0 & s0 & a0 & -> & [-> _] & H & _).
  change (run (Grp 1 (Plus isdecimal) · ?Y) accept) with (run (Grp 1 (Plus isdecimal)) (run Y accept)) in H.
  apply run_Grp_sound in H as (w & rest & a1 & -> & Hl & H & Ha1).
  apply Forall_in_nil in Ha1 as ->.
  apply run_sound_groups in H as (w' & rest' & a2 & -> & _ & H & Ha2).
  rewrite (group_first _ 1 _ _ _ _ _ _ _ _ H Ha2) by (simpl; intros [=]%list_elem_of_singleton).
  by rewrite (span_of _ [] w (w' ++ rest')).
Qed.

(** The first group of a match of the point pattern. *)
Lemma muc_group line m :
  re_match MUC_PATTERN line = Some m -> muc_letter (group line m 1).
Proof.
  unfold re_match, MUC_PATTERN. intros H.
  apply run_Cat_sound in H as (w0 & s0 & a0 & -> & [-> _] & H & _).
  match type of H with run (Grp 1 ?P · ?Y) accept _ _ _ = _ =>
    change (run (Grp 1 P · Y) accept) with (run (Grp 1 P) (run Y accept)) in H end.
  apply run_Grp_sound in H as (w & rest & a1 & -> & Hl & H & Ha1).
  apply Forall_in_nil in Ha1 as ->.
  apply run_sound_groups in H as (w' & rest' & a2 & -> & _ & H & Ha2).
  rewrite (group_first _ 1 _ _ _ _ _ _ _ _ H Ha2) by (simpl; intros [=]%list_elem_of_singleton).
  rewrite (span_of _ [] w (w' ++ rest')) by done.
  destruct Hl as (x & -> & Hx). by exists x.
Qed.

(** ** The labels of a parsed tree *)

Lemma dieus_snoc t e : dieus (t ++ [e]) = dieus t ++ dieus_of e.
Proof. unfold dieus. by rewrite flat_map_snoc. Qed.

Ltac all_nodes :=
  repeat progress
    (rewrite ?value_cons, ?dieus_snoc in *;
     cbn [value_root value_dieu value_khoan value_muc map rev dieus_of app
          gd_Dieu gd_Content gd_Khoan gk_Khoan gk_Content gk_Muc gm_Muc gm_Content
          dieu_Dieu dieu_Content dieu_Khoan khoan_Khoan khoan_Content khoan_Muc
          muc_Muc muc_Content] in *;
     rewrite ?Forall_app, ?Forall_cons, ?Forall_nil in *).

Ltac break :=
  repeat match goal with
  | H : _ /\ _ |- _ => destruct H
  | H : exists _, _ |- _ => destruct H
  end; repeat split; eauto.

Ltac labels :=
  all_nodes; unfold labelled_dieu, labelled_khoan, labelled_muc in *; all_nodes; break.

Lemma labelled_grow_plain G line :
  Forall labelled_dieu (dieus (value G)) ->
  Forall labelled_dieu (dieus (value (grow_plain G line))).
Proof.
  unfold grow_plain.
  destruct G as [|[p pt | c t [|[d l ct [|[k kl kct [|[m ml mct] ms]] ks]] ds] cc] R];
    lazy beta iota zeta; intros H; by labels.
Qed.

Lemma labelled_turn line G G' :
  turn line G G' ->
  Forall labelled_dieu (dieus (value G)) -> Forall labelled_dieu (dieus (value G')).
Proof.
  destruct 1 as [G m Hc | c t ds cc R m Hc Hd | G m Hc Hd Ho
                | c t d l ct ks ds cc R m Hc Hd Hk
                | c t d l ct k kl kct ms ks ds cc R m Hc Hd Hk Hm | G Hc Hd];
    [| | | | | by apply labelled_grow_plain]; intros H.
  - by labels; rewrite ?app_nil_r.
  - apply dieu_group in Hd. by labels.
  - apply dieu_group in Hd. by labels.
  - apply khoan_group in Hk. by labels.
  - apply muc_group in Hm. by labels.
Qed.

(** Every article of a parsed tree is labelled "Dieu " and the number of
    its header line, every clause "Khoan " and its digits, every point
    "Muc " and its letter. *)
Theorem parsed_labels (text : pystr) :
  exists t, parse_text text = Ok t /\ Forall labelled_dieu (dieus t).
Proof.
  exists (value (grows [] (split NL text))). split; [apply parse_text_grows|].
  apply (grows_invariant (fun G => Forall labelled_dieu (dieus (value G)))); [|done].
  intros G raw _ HG _ Ht. by eapply labelled_turn.
Qed.

(** ** Line breaks *)

Lemma split_cons_inv sep s : exists l ls, split sep s = l :: ls.
Proof.
  induction s as [|c s (l & ls & IH)]; simpl; [eauto|].
  destruct (c =? sep); [eauto|]. rewrite IH. eauto.
Qed.

(** No element of a split holds the separator. *)
Lemma split_no_sep sep s : Forall (fun l => sep ∉ l) (split sep s).
Proof.
  induction s as [|c s IH]; simpl.
  - apply Forall_cons. split; [apply not_elem_of_nil | done].
  - destruct (N.eqb_spec c sep) as [->|Hne].
    + apply Forall_cons. split; [apply not_elem_of_nil | done].
    + destruct (split sep s) as [|l ls].
      { apply Forall_cons. split; [|done]. by intros ->%list_elem_of_singleton. }
      apply Forall_cons in IH as [Hl Hls]. apply Forall_cons. split; [|done].
      rewrite elem_of_cons. intros [-> | H]; done.
Qed.

Lemma strip_by_keeps p (x : cp) s : x ∉ s -> x ∉ strip_by p s.
Proof.
  destruct (strip_by_spec p s) as (a & b & Hs & _). intros Hx Hin. apply Hx.
  rewrite Hs, !elem_of_app. auto.
Qed.

Lemma group_keeps (x : cp) line m n : x ∉ line -> x ∉ group line m n.
Proof.
  intros Hx. unfold group.
  destruct (List.find _ _) as [[k [a b]]|]; [|apply not_elem_of_nil].
  intros Hin. apply Hx.
  by eapply subseteq_drop, subseteq_take.
Qed.

Lemma dieu_content_keeps (x : cp) line m : x ∉ line -> x ∉ dieu_content_of line m.
Proof.
  intros Hx. unfold dieu_content_of, strip, strip_chars. do 2 apply strip_by_keeps.
  intros Hin. apply Hx. by eapply subseteq_drop.
Qed.

Lemma literal_no_NL (s : pystr) : forallb (fun x => negb (x =? NL)) s = true -> NL ∉ s.
Proof.
  rewrite forallb_forall. intros H Hin%list_elem_of_In. apply H in Hin.
  by rewrite N.eqb_refl in Hin.
Qed.

Lemma strings_snoc t e : strings (t ++ [e]) = strings t ++ strings_element e.
Proof. unfold strings. by rewrite flat_map_snoc. Qed.

Ltac all_strings :=
  repeat progress
    (rewrite ?value_cons, ?strings_snoc, ?flat_map_app in *;
     unfold option_list, default in *;
     cbn [from_option id option_rect value_root value_dieu value_khoan value_muc map rev app flat_map
          strings_element strings_dieu strings_khoan strings_muc
          gd_Dieu gd_Content gd_Khoan gk_Khoan gk_Content gk_Muc gm_Muc gm_Content
          dieu_Dieu dieu_Content dieu_Khoan khoan_Khoan khoan_Content khoan_Muc
          muc_Muc muc_Content] in *;
     rewrite ?Forall_app, ?Forall_cons, ?Forall_nil, ?not_elem_of_app in *).

Ltac no_NL :=
  all_strings; break;
  try (apply literal_no_NL; reflexivity);
  auto using group_keeps, dieu_content_keeps.

Lemma one_line_grow_plain G line :
  NL ∉ line ->
  Forall (fun s => NL ∉ s) (strings (value G)) ->
  Forall (fun s => NL ∉ s) (strings (value (grow_plain G line))).
Proof.
  unfold grow_plain.
  destruct G as [|[p pt | c t [|[d l ct [|[k kl kct [|[m ml mct] ms]] ks]] ds] [cc|]] R];
    lazy beta iota zeta; intros Hl H; by no_NL.
Qed.

Lemma one_line_turn line G G' :
  turn line G G' -> NL ∉ line ->
  Forall (fun s => NL ∉ s) (strings (value G)) ->
  Forall (fun s => NL ∉ s) (strings (value G')).
Proof.
  destruct 1 as [G m Hc | c t ds cc R m Hc Hd | G m Hc Hd Ho
                | c t d l ct ks ds cc R m Hc Hd Hk
                | c t d l ct k kl kct ms ks ds cc R m Hc Hd Hk Hm | G Hc Hd];
    [| | | | | by apply one_line_grow_plain]; intros Hl H; by no_NL.
Qed.

(** No label and no content of a parsed tree holds a line break. *)
Theorem parsed_strings_one_line (text : pystr) :
  exists t, parse_text text = Ok t /\ Forall (fun s => NL ∉ s) (strings t).
Proof.
  exists (value (grows [] (split NL text))). split; [apply parse_text_grows|].
  apply (grows_invariant (fun G => Forall (fun s => NL ∉ s) (strings (value G)))); [|done].
  intros G raw Hin HG _ Ht. eapply one_line_turn; [done | | done].
  apply strip_by_keeps.
  by apply (proj1 (Forall_forall _ _) (split_no_sep NL text)).
Qed.

(** ** The chapters of a parsed tree *)

Lemma chuong_titles_snoc t e :
  chuong_titles (t ++ [e])
  = chuong_titles t ++ match e with EPreamble _ => [] | EChuong c _ _ => [c] end.
Proof. unfold chuong_titles. by rewrite flat_map_snoc. Qed.

Lemma chuong_titles_preambles t :
  forallb is_preamble t = true -> chuong_titles t = [].
Proof.
  induction t as [|[p | c ds ct] t IH]; simpl; [done | | done]. apply IH.
Qed.

(** With no chapter open there is no chapter yet. *)
Lemma no_chuong_open G :
  ordered G = true -> open_chuong G = None -> chuong_titles (value G) = [].
Proof.
  intros Ho Hn. apply chuong_titles_preambles.
  destruct G as [|[p pt | c t ds cc] R]; [done | | done].
  rewrite value_cons, forallb_app, all_preambles_value by done. done.
Qed.

Lemma chuongs_of_lines_snoc lines titles c :
  chuongs_of_lines lines titles -> chuong_line lines c ->
  chuongs_of_lines lines (titles ++ [c]).
Proof.
  destruct titles as [|c0 cs]; simpl; [auto|].
  intros [H0 Hcs] Hc. split; [done|]. apply Forall_app. auto.
Qed.

Lemma chuong_titles_turn lines raw G :
  raw ∈ lines -> strip raw <> [] -> turn (strip raw) G (grow G raw) ->
  ordered G = true ->
  chuongs_of_lines lines (chuong_titles (value G)) ->
  chuongs_of_lines lines (chuong_titles (value (grow G raw))).
Proof.
  intros Hin Hne Ht Ho HG.
  remember (grow G raw) as G' eqn:EG'. remember (strip raw) as line eqn:El.
  destruct Ht as [G m Hc | c t ds cc R m Hc Hd | G m Hc Hd Hn
                | c t d l ct ks ds cc R m Hc Hd Hk
                | c t d l ct k kl kct ms ks ds cc R m Hc Hd Hk Hm | G Hc Hd];
    rewrite ?value_cons, ?chuong_titles_snoc in *; cbn [value_root] in *; try done.
  - apply chuongs_of_lines_snoc; [done|]. split; [|by eexists].
    subst line. apply list_elem_of_fmap. by exists raw.
  - rewrite (no_chuong_open G Ho Hn). simpl. auto.
  - destruct (grow_plain_roots G line) as
      [(c & t & ds & cc & ds' & cc' & R & -> & ->) | (_ & ->)];
      rewrite ?value_cons, ?chuong_titles_snoc in *; cbn [value_root] in *;
      by rewrite ?app_nil_r.
Qed.

(** Only the first chapter of a parsed tree can be the default chapter
    "Chuong 0": every other chapter, and the first one when it is not the
    default chapter, has for title a trimmed line of the text that
    matches the chapter pattern, which "Chuong 0" does not. *)
Theorem default_chuong_only_first (text : pystr) :
  exists t, parse_text text = Ok t
    /\ match chuong_titles t with
       | [] => True
       | c :: cs =>
         (c = py "Chuong 0" \/ chuong_line (split NL text) c)
         /\ Forall (fun c' => chuong_line (split NL text) c' /\ c' <> py "Chuong 0") cs
       end.
Proof.
  exists (value (grows [] (split NL text))). split; [apply parse_text_grows|].
  assert (ordered (grows [] (split NL text)) = true
          /\ chuongs_of_lines (split NL text)
               (chuong_titles (value (grows [] (split NL text))))) as [_ H].
  { apply (grows_invariant
             (fun G => ordered G = true
                       /\ chuongs_of_lines (split NL text) (chuong_titles (value G))));
      [|done].
    intros G raw Hin [Ho HG] Hne Ht. split; [by apply ordered_grow|].
    by apply chuong_titles_turn. }
  unfold chuongs_of_lines in H.
  destruct (chuong_titles _) as [|c cs]; [done|]. destruct H as [Hc Hcs].
  split; [done|]. eapply Forall_impl; [exact Hcs|]. intros c' Hc'. split; [done|].
  intros ->. destruct Hc' as [_ [m Hm]]. by vm_compute in Hm.
Qed.

(** ** Substituting a pattern that ends at the end of the text *)

Lemma re_sub_none r repl text :
  search_from r 0 text = None -> re_sub r repl text = text.
Proof.
  intros Hn. pose proof (search_from_None r text 0 Hn) as Hnone. unfold re_sub.
  rewrite (sub_from_copy r repl (length text) text 0); [|done|].
  - rewrite drop_all, firstn_all. simpl.
    specialize (Hnone (length text) ltac:(lia)). rewrite drop_all in Hnone.
    simpl in Hnone. rewrite Hnone. apply app_nil_r.
  - intros j Hj. apply Hnone. lia.
Qed.

Section EndOfText.
Variable r : regex.
Hypothesis r_nil : forall pos, run r accept pos [] [] = None.
Hypothesis r_NL : forall pos, run r accept pos [NL] [] = None.
Hypothesis r_end : forall pos w rest,
  lang r pos w rest -> w <> [] /\ (rest = [] \/ rest = [NL]).

(** The first match is the only one; what it leaves is the text before
    it and the final line break after it. *)
Lemma re_sub_first text i m :
  search_from r 0 text = Some (i, m) ->
  exists w rest,
    drop i text = w ++ rest /\ lang r i w rest /\ m_end m = (i + length w)%nat
    /\ w <> [] /\ (rest = [] \/ rest = [NL])
    /\ (forall j, (j < i)%nat -> run r accept j (drop j text) [] = None)
    /\ re_sub r [] text = take i text ++ rest.
Proof.
  intros (j & -> & Hj & Hm & Hnone)%search_from_Some. simpl in *.
  pose proof Hm as (w & rest & Hd & Hl & Hend)%run_accept_sound.
  destruct (r_end _ _ _ Hl) as [Hw Hrest].
  exists w, rest. repeat split; try done.
  assert (length (drop j text) = length (w ++ rest)) as Hlen by (by rewrite Hd).
  rewrite length_drop, length_app in Hlen.
  rewrite (sub_from_one r [] text j m rest); [done | done | done | done | | | |].
  - rewrite Hend. destruct w; [done|]. simpl. lia.
  - rewrite Hend, <- drop_drop, Hd. by rewrite drop_app_length.
  - rewrite Hend. lia.
  - destruct Hrest as [-> | ->]; simpl; by rewrite ?r_NL, ?r_nil.
Qed.

End EndOfText.

(** *** The two tails *)

Lemma section_tail_nil pos : run SECTION_TAIL accept pos [] [] = None.
Proof. done. Qed.

Lemma section_tail_NL pos : run SECTION_TAIL accept pos [NL] [] = None.
Proof. done. Qed.

Lemma enact_tail_nil pos : run ENACT_TAIL accept pos [] [] = None.
Proof. done. Qed.

Lemma enact_tail_NL pos : run ENACT_TAIL accept pos [NL] [] = None.
Proof. done. Qed.

Lemma section_tail_end pos w rest :
  lang SECTION_TAIL pos w rest -> w <> [] /\ (rest = [] \/ rest = [NL]).
Proof.
  intros (w1 & w2 & -> & _ & Hne & _ & Hrest)%section_tail_prefix. split; [|done].
  intros [_ ->]%app_eq_nil. done.
Qed.

Lemma enact_tail_prefix pos w rest :
  lang ENACT_TAIL pos w rest ->
  exists w1 w2, w = w1 ++ w2 /\ lang ENACT_MARK pos w1 (w2 ++ rest)
                /\ w2 <> [] /\ (rest = [] \/ rest = [NL]).
Proof.
  unfold ENACT_TAIL. cbn [lang].
  intros (w1 & w23 & -> & H1 & w2 & w3 & -> & [Hne Hdot] & -> & Hrest).
  exists w1, w2. rewrite !app_nil_r in *. by repeat split.
Qed.

Lemma enact_tail_end pos w rest :
  lang ENACT_TAIL pos w rest -> w <> [] /\ (rest = [] \/ rest = [NL]).
Proof.
  intros (w1 & w2 & -> & _ & Hne & Hrest)%enact_tail_prefix. split; [|done].
  intros [_ ->]%app_eq_nil. done.
Qed.

(** The first rule changes a text exactly when the pattern of its
    substitution occurs in it, that is, when a section marker is followed
    on the last line by one more code point at least. It then removes the
    last line from the first such marker on and keeps the final line
    break. A text whose markers all lie on earlier lines stays as it
    is. *)
Theorem cut_section_only_line_end (text : pystr) :
  (~ occurs SECTION_TAIL text /\ cut_section text = text)
  \/ (exists i w nl,
        drop i text = w ++ nl /\ lang SECTION_TAIL i w nl
        /\ w <> [] /\ (NL ∉ w) /\ (nl = [] \/ nl = [NL])
        /\ (forall j, (j < i)%nat -> ~ occurs_at SECTION_TAIL text j)
        /\ cut_section text = take i text ++ nl).
Proof.
  unfold cut_section.
  destruct (search_from SECTION_TAIL 0 text) as [[i m]|] eqn:Et.
  - right.
    destruct (re_sub_first SECTION_TAIL section_tail_nil section_tail_NL section_tail_end
                text i m Et) as (w & nl & Hd & Hl & _ & Hw & Hnl & Hnone & Hsub).
    exists i, w, nl. repeat split; try done.
    + apply section_tail_prefix in Hl as (w1 & w2 & -> & Hl1 & _ & Hn2 & _).
      rewrite elem_of_app. intros [H | H]; [|done].
      by apply (lang_excludes NL SECTION_MARK i w1 _ section_mark_no_NL Hl1).
    + intros j Hj (u & rest & Hu & _ & Hlu).
      by destruct (run_None_no_match _ _ _ u rest (Hnone j Hj) Hu).
    + destruct (re_search SECTION_MARK text) eqn:Em; [done|].
      destruct (no_search_no_occurrence _ _ Em).
      apply section_tail_prefix in Hl as (w1 & w2 & -> & Hl1 & _).
      exists i, w1, (w2 ++ nl). rewrite Hd, <- app_assoc. repeat split; [|done].
      apply (f_equal length) in Hd. rewrite length_drop in Hd.
      destruct (decide (i <= length text)%nat); [done|].
      rewrite !length_app in Hd. destruct w1, w2; simpl in *; try done; lia.
  - left. split.
    + intros Ho%re_search_occurs. unfold re_search in Ho. rewrite Et in Ho.
      by destruct Ho.
    + destruct (re_search SECTION_MARK text); [by apply re_sub_none | done].
Qed.

(** *** The second rule *)

(** A run of literals matches itself only. *)
Lemma lang_str s : s <> [] -> forall pos w rest, lang (str s) pos w rest -> w = s.
Proof.
  induction s as [|x [|y s] IH]; intros Hne pos w rest; [done| |].
  - simpl. unfold lit. by intros (z & -> & ->%N.eqb_eq).
  - change (str (x :: y :: s)) with (Chr (lit x) · str (y :: s)). cbn [lang].
    intros (w1 & w2 & -> & (z & -> & ->%N.eqb_eq) & H2). unfold lit.
    by rewrite (IH ltac:(done) _ _ _ H2).
Qed.

(** The enactment marker matches one of two phrases. *)
Lemma enact_mark_words pos w rest :
  lang ENACT_MARK pos w rest ->
  w = py "Luật này được Quốc hội" \/ w = py "Luật này đã được Quốc hội".
Proof.
  unfold ENACT_MARK. eval_py. cbn [lang].
  intros (w1 & w23 & -> & H1 & w2 & w3 & -> & H2 & H3).
  apply lang_str in H1; [|discriminate]. apply lang_str in H3; [|discriminate].
  subst w1 w3.
  destruct H2 as [-> | H2]; [by left|].
  apply lang_str in H2; [|discriminate]. subst w2. by right.
Qed.

(** At one place of a text the marker matches one phrase only. *)
Lemma enact_mark_unique pos w rest pos' w' rest' :
  lang ENACT_MARK pos w rest -> lang ENACT_MARK pos' w' rest' ->
  w ++ rest = w' ++ rest' -> w = w'.
Proof.
  intros H1%enact_mark_words H2%enact_mark_words Heq.
  destruct H1 as [-> | ->], H2 as [-> | ->];
    [reflexivity | exfalso | exfalso | reflexivity];
    apply (f_equal (take 11)) in Heq; vm_compute in Heq; discriminate Heq.
Qed.

Lemma final_nl_cons x y s : final_nl (x :: y :: s) = final_nl (y :: s).
Proof. done. Qed.

Lemma final_nl_length s : (length (final_nl s) <= length s)%nat.
Proof.
  unfold final_nl. destruct s as [|x s]; [done|].
  destruct (last (x :: s)) as [z|]; [|simpl; lia].
  destruct (z =? NL); simpl; lia.
Qed.

Lemma final_nl_drop s : drop (length s - length (final_nl s)) s = final_nl s.
Proof.
  induction s as [|x [|y s] IH]; [done | |].
  - unfold final_nl. simpl. destruct (N.eqb_spec x NL) as [->|]; done.
  - rewrite final_nl_cons. pose proof (final_nl_length (y :: s)) as Hle.
    replace (length (x :: y :: s) - length (final_nl (y :: s)))%nat
      with (S (length (y :: s) - length (final_nl (y :: s)))) by (simpl in *; lia).
    done.
Qed.

Lemma final_nl_split s :
  s = take (length s - length (final_nl s)) s ++ final_nl s.
Proof.
  rewrite <- (final_nl_drop s) at 2. symmetry. apply take_drop.
Qed.

Lemma final_nl_cases s : final_nl s = [] \/ final_nl s = [NL].
Proof.
  unfold final_nl. destruct (last s) as [z|]; [|by left].
  destruct (z =? NL); auto.
Qed.

(** The lazy repetition under DOTALL stops before the final line break,
    and at the end of a text that has none. *)
Lemma lazy_to_end : forall s pos c,
  star_lazy dot_all (run Eos accept) pos s c
  = Some (RMatch (pos + (length s - length (final_nl s)))%nat c).
Proof.
  induction s as [|x [|y s] IH]; intros pos c.
  - simpl. by rewrite Nat.add_0_r.
  - unfold final_nl. simpl. destruct (N.eqb_spec x NL) as [->|]; simpl.
    + by rewrite Nat.add_0_r.
    + by rewrite Nat.add_1_r.
  - rewrite final_nl_cons. pose proof (final_nl_length (y :: s)) as Hle.
    change (star_lazy dot_all (run Eos accept) pos (x :: y :: s) c)
      with (star_lazy dot_all (run Eos accept) (S pos) (y :: s) c).
    rewrite IH. do 2 f_equal. simpl in *. lia.
Qed.

(** From its first enactment marker that is followed by one more code
    point at least, the second rule removes everything, line breaks
    too, up to the final line break of the text, which it keeps unless it
    is the one code point that follows the marker. *)
Theorem cut_enactment_first_marker (text : pystr) (i : nat) (w : pystr) (x : cp)
    (after : pystr) :
  drop i text = w ++ x :: after ->
  lang ENACT_MARK i w (x :: after) ->
  (forall j, (j < i)%nat -> ~ occurs_at ENACT_MARK text j) ->
  cut_enactment text = take i text ++ final_nl after.
Proof.
  intros Hd Hl Hfirst.
  assert (i <= length text)%nat as Hi.
  { destruct (Nat.le_gt_cases i (length text)) as [|Hgt]; [done|].
    rewrite drop_ge in Hd by lia. by destruct w. }
  unfold cut_enactment.
  assert (is_Some (re_search ENACT_MARK text)) as [? ->].
  { apply re_search_occurs. by exists i, w, (x :: after). }
  assert (exists m, run ENACT_TAIL accept i (drop i text) [] = Some m
                    /\ m_end m = (i + length w + 1
                                 + (length after - length (final_nl after)))%nat)
    as (m & Hm & Hend).
  { assert (is_Some (run ENACT_TAIL accept i (drop i text) [])) as [m Hm].
    { pose proof (final_nl_split after) as Hsplit.
      set (body := take (length after - length (final_nl after)) after) in Hsplit.
      replace (drop i text) with ((w ++ x :: body) ++ final_nl after)
        by (by rewrite Hd, <- app_assoc, <- app_comm_cons, <- Hsplit).
      apply run_accept_complete. unfold ENACT_TAIL. cbn [lang].
      exists w, (x :: body). split; [done|]. split.
      { by rewrite <- app_comm_cons, <- Hsplit. }
      exists (x :: body), []. rewrite app_nil_r.
      repeat split; [done | by apply Forall_forall | apply final_nl_cases]. }
    exists m. split; [done|].
    unfold ENACT_TAIL in Hm.
    change (run (ENACT_MARK · PlusLazy dot_all · Eos) accept)
      with (run ENACT_MARK (run (PlusLazy dot_all · Eos) accept)) in Hm.
    apply run_sound in Hm as (w' & rest' & c' & Heq & Hl' & Hk).
    rewrite Hd in Heq.
    assert (w = w') as <- by (by eapply enact_mark_unique).
    apply app_inv_head in Heq as <-.
    simpl in Hk. rewrite lazy_to_end in Hk. injection Hk as <-. simpl. lia. }
  pose proof (final_nl_length after) as Hle.
  assert (length (drop i text) = length (w ++ x :: after)) as Hlen by (by rewrite Hd).
  rewrite length_drop, length_app in Hlen. simpl in Hlen.
  rewrite (sub_from_one ENACT_TAIL [] text i m (final_nl after)); [done | done | | done | | | |].
  - intros j Hj. destruct (run ENACT_TAIL accept j (drop j text) []) as [m'|] eqn:E; [|done].
    apply run_accept_sound in E as (u & rest & Hu & (u1 & u2 & -> & Hu1 & _)%enact_tail_prefix & _).
    destruct (Hfirst j Hj). exists u1, (u2 ++ rest). rewrite Hu, <- app_assoc.
    split; [done|]. split; [lia|done].
  - rewrite Hend. lia.
  - rewrite Hend.
    replace (i + length w + 1 + (length after - length (final_nl after)))%nat
      with (i + (length (w ++ [x]) + (length after - length (final_nl after))))%nat
      by (rewrite length_app; simpl; lia).
    rewrite <- drop_drop, Hd.
    replace (w ++ x :: after) with ((w ++ [x]) ++ after) by (by rewrite <- app_assoc).
    rewrite <- drop_drop, drop_app_length. apply final_nl_drop.
  - rewrite Hend. lia.
  - destruct (final_nl_cases after) as [-> | ->]; reflexivity.
Qed.

Lemma cut_enactment_first_marker_witness :
  cut_enactment (py "Điều 1. A Luật này được Quốc hội B\n1. C\n") = py "Điều 1. A \n".
Proof.
  apply (cut_enactment_first_marker (py "Điều 1. A Luật này được Quốc hội B\n1. C\n") 10
           (py "Luật này được Quốc hội") 32 (py "B\n1. C\n")).
  - reflexivity.
  - apply lang_by_run. vm_compute. eauto.
  - apply none_before_no_occurrence. reflexivity.
Defined.

(** *** Both rules *)

Lemma re_sub_prefix r text :
  (forall pos, run r accept pos [] [] = None) ->
  (forall pos, run r accept pos [NL] [] = None) ->
  (forall pos w rest, lang r pos w rest -> w <> [] /\ (rest = [] \/ rest = [NL])) ->
  exists i nl, re_sub r [] text = take i text ++ nl
               /\ (nl = [] \/ nl = [NL]) /\ (i + length nl <= length text)%nat.
Proof.
  intros Hnil HNL Hend.
  destruct (search_from r 0 text) as [[i m]|] eqn:E.
  - destruct (re_sub_first r Hnil HNL Hend text i m E)
      as (w & nl & Hd & _ & _ & _ & Hnl & _ & Hsub).
    exists i, nl. repeat split; try done.
    apply (f_equal length) in Hd. rewrite length_drop, length_app in Hd.
    apply search_from_Some in E as (j & -> & Hj & _). lia.
  - exists (length text), []. rewrite re_sub_none by done.
    rewrite firstn_all, app_nil_r. simpl. repeat split; auto; lia.
Qed.

Lemma keeps_all text :
  exists i nl, text = take i text ++ nl
               /\ (nl = [] \/ nl = [NL]) /\ (i + length nl <= length text)%nat.
Proof.
  exists (length text), []. rewrite firstn_all, app_nil_r. simpl. repeat split; auto; lia.
Qed.

Lemma cut_section_prefix text :
  exists i nl, cut_section text = take i text ++ nl
               /\ (nl = [] \/ nl = [NL]) /\ (i + length nl <= length text)%nat.
Proof.
  unfold cut_section. destruct (re_search SECTION_MARK text); [|apply keeps_all].
  apply re_sub_prefix; [apply section_tail_nil | apply section_tail_NL | apply section_tail_end].
Qed.

Lemma cut_enactment_prefix text :
  exists i nl, cut_enactment text = take i text ++ nl
               /\ (nl = [] \/ nl = [NL]) /\ (i + length nl <= length text)%nat.
Proof.
  unfold cut_enactment. destruct (re_search ENACT_MARK text); [|apply keeps_all].
  apply re_sub_prefix; [apply enact_tail_nil | apply enact_tail_NL | apply enact_tail_end].
Qed.

(** Post-processing only removes: what it leaves of a text is the text
    up to some place, followed by one line break at most, and is never
    longer than the text. *)
Theorem postprocess_keeps_prefix (text : pystr) :
  exists i nl, postprocess text = take i text ++ nl
               /\ (nl = [] \/ nl = [NL]) /\ (i + length nl <= length text)%nat.
Proof.
  unfold postprocess.
  destruct (cut_section_prefix text) as (i & nl1 & -> & Hnl1 & Hi).
  destruct (cut_enactment_prefix (take i text ++ nl1)) as (j & nl2 & -> & Hnl2 & Hj).
  rewrite length_app, length_take in Hj.
  destruct (decide (j <= i)%nat) as [Hle | Hgt].
  - exists j, nl2. rewrite take_app_le by (rewrite length_take; lia).
    rewrite take_take. replace (j `min` i)%nat with j by lia.
    repeat split; [done|]. lia.
  - assert (nl1 = [NL] /\ nl2 = [] /\ j = S i) as (-> & -> & ->).
    { destruct Hnl1 as [-> | ->], Hnl2 as [-> | ->]; simpl in *; repeat split; try done; lia. }
    exists i, [NL]. rewrite app_nil_r.
    rewrite take_app_ge by (rewrite length_take; lia).
    rewrite length_take. replace (S i - i `min` length text)%nat with 1%nat by (simpl in *; lia).
    simpl. repeat split; auto.
Qed.

(** ** The articles of a tree and the lines of the text *)

Lemma article_numbers_chuong raw m :
  re_match CHUONG_PATTERN (strip raw) = Some m -> article_numbers [raw] = [].
Proof. intros H. unfold article_numbers, classify. simpl. by rewrite H. Qed.

Lemma article_numbers_dieu raw m :
  re_match CHUONG_PATTERN (strip raw) = None ->
  re_match DIEU_PATTERN (strip raw) = Some m ->
  article_numbers [raw] = [group (strip raw) m 1].
Proof. intros H1 H2. unfold article_numbers, classify. simpl. by rewrite H1, H2. Qed.

Lemma article_numbers_other raw :
  re_match CHUONG_PATTERN (strip raw) = None ->
  re_match DIEU_PATTERN (strip raw) = None ->
  article_numbers [raw] = [].
Proof.
  intros H1 H2. unfold article_numbers, classify. simpl. rewrite H1, H2.
  destruct (re_match KHOAN_PATTERN (strip raw)); [done|].
  by destruct (re_match MUC_PATTERN (strip raw)).
Qed.

Lemma article_numbers_blank raw : strip raw = [] -> article_numbers [raw] = [].
Proof. intros H. unfold article_numbers. simpl. by rewrite H. Qed.

Lemma dieu_labels_grow_plain G line :
  map dieu_Dieu (dieus (value (grow_plain G line))) = map dieu_Dieu (dieus (value G)).
Proof.
  unfold grow_plain.
  destruct G as [|[p pt | c t [|[d l ct [|[k kl kct [|[m ml mct] ms]] ks]] ds] cc] R];
    lazy beta iota zeta; rewrite ?value_cons, ?dieus_snoc; try done;
    cbn [value_root dieus_of map rev value_dieu]; rewrite ?map_app; try done.
  by rewrite app_nil_r.
Qed.

(** A turn of the loop adds the label of the article its line is the
    header of, if it is one, after the labels of the articles there
    are. *)
Lemma dieu_labels_grow G raw :
  map dieu_Dieu (dieus (value (grow G raw)))
  = map dieu_Dieu (dieus (value G))
    ++ map (app (py "Dieu ")) (article_numbers [raw]).
Proof.
  destruct (decide (strip raw = [])) as [E|E].
  { by rewrite grow_blank, article_numbers_blank, app_nil_r. }
  pose proof (grow_turn G raw E) as Ht.
  remember (grow G raw) as G' eqn:EG'. clear EG'.
  remember (strip raw) as line eqn:El.
  destruct Ht as [G m Hm | c t ds cc R m Hm Hd | G m Hm Hd Hn
                | c t d l ct ks ds cc R m Hm Hd Hk
                | c t d l ct k kl kct ms ks ds cc R m Hm Hd Hk Hx | G Hm Hd];
    subst line.
  - rewrite (article_numbers_chuong raw m Hm), value_cons, dieus_snoc. simpl.
    by rewrite !app_nil_r.
  - rewrite (article_numbers_dieu raw m Hm Hd), !value_cons, !dieus_snoc.
    cbn [value_root dieus_of map rev value_dieu]. by rewrite !map_app, <- !app_assoc.
  - rewrite (article_numbers_dieu raw m Hm Hd), !value_cons, !dieus_snoc.
    cbn [value_root dieus_of map rev value_dieu]. by rewrite !map_app.
  - rewrite (article_numbers_other raw Hm Hd), !value_cons, !dieus_snoc.
    cbn [value_root dieus_of map rev value_dieu]. by rewrite !map_app, !app_nil_r.
  - rewrite (article_numbers_other raw Hm Hd), !value_cons, !dieus_snoc.
    cbn [value_root dieus_of map rev value_dieu]. by rewrite !map_app, !app_nil_r.
  - by rewrite (article_numbers_other raw Hm Hd), dieu_labels_grow_plain, app_nil_r.
Qed.

Lemma article_numbers_cons raw lines :
  article_numbers (raw :: lines) = article_numbers [raw] ++ article_numbers lines.
Proof. unfold article_numbers. simpl. by rewrite app_nil_r. Qed.

Lemma dieu_labels_grows lines : forall G,
  map dieu_Dieu (dieus (value (grows G lines)))
  = map dieu_Dieu (dieus (value G)) ++ map (app (py "Dieu ")) (article_numbers lines).
Proof.
  induction lines as [|l ls IH]; intros G.
  - simpl. by rewrite app_nil_r.
  - unfold grows in *. simpl foldl. rewrite IH, dieu_labels_grow.
    rewrite (article_numbers_cons l ls), map_app, app_assoc. done.
Qed.

(** ** Replacing the key word of a label *)

Lemma starts_with_short old s :
  (length s < length old)%nat -> starts_with old s = false.
Proof.
  revert s. induction old as [|a old IH]; intros s H; [simpl in H; lia|].
  destruct s as [|b s]; [done|]. simpl in *. rewrite IH by lia. apply andb_false_r.
Qed.

Lemma replace_short old new s :
  (length s < length old)%nat -> replace_from old new O s = s.
Proof.
  induction s as [|c s IH]; intros H; [done|]. simpl.
  destruct old as [|a old]; [simpl in H; lia|].
  rewrite (starts_with_short (a :: old) (c :: s) H).
  rewrite IH; [done | simpl in *; lia].
Qed.

(** Nothing is replaced in digits followed by fewer code points than
    the key word has, when the key word starts with no digit. *)
Lemma replace_digits a old new ds l :
  isdecimal a = false -> (length l < length (a :: old))%nat ->
  Forall (fun x => isdecimal x = true) ds ->
  replace_from (a :: old) new O (ds ++ l) = ds ++ l.
Proof.
  intros Ha Hl. induction 1 as [|y ds Hy _ IH]; [by apply replace_short|].
  simpl. destruct (N.eqb_spec a y) as [->|_]; [congruence|]. simpl. by rewrite IH.
Qed.

Lemma article_title n :
  dieu_number n -> replace (py "Dieu") (py "Điều") (py "Dieu " ++ n) = py "Điều " ++ n.
Proof.
  intros (ds & l & -> & [_ Hds] & Hl). unfold replace. eval_py.
  cbn -[replace_from]. cbn [replace_from starts_with N.eqb Pos.eqb andb length Nat.pred].
  change (N.pos 68 =? N.pos 32) with false. cbn [andb].
  rewrite replace_digits; [done | done | | done].
  destruct Hl as [-> | (x & -> & _)]; simpl; lia.
Qed.

Lemma clause_number n :
  decimals n -> replace (py "Khoan ") [] (py "Khoan " ++ n) = n.
Proof.
  intros [_ Hn]. unfold replace. eval_py.
  cbn -[replace_from]. cbn [replace_from starts_with N.eqb Pos.eqb andb length Nat.pred app].
  destruct n as [|y n]; [done|].
  rewrite <- (app_nil_r (y :: n)) at 1.
  rewrite replace_digits; [apply app_nil_r | done | simpl; lia | done].
Qed.

Lemma point_letter n :
  muc_letter n -> replace (py "Muc ") [] (py "Muc " ++ n) = n.
Proof.
  intros (x & -> & _). unfold replace. eval_py.
  cbn -[replace_from]. cbn [replace_from starts_with N.eqb Pos.eqb andb length Nat.pred app].
  by rewrite andb_false_r.
Qed.

(** ** The dictionary of the trees *)

Lemma dict_set_keys {V} k (v : V) d :
  (dict_set k v d).*1 = d.*1 ++ (if bool_decide (k ∈ d.*1) then [] else [k]).
Proof.
  induction d as [|[k' v'] d IH]; [done|]. cbn [dict_set].
  destruct (decide (k' = k)) as [->|Hne].
  - rewrite bool_decide_eq_true_2 by done. rewrite !fmap_cons. cbn [fst].
    rewrite bool_decide_eq_true_2 by left. by rewrite app_nil_r.
  - rewrite bool_decide_eq_false_2 by done. rewrite !fmap_cons, IH. cbn [fst].
    rewrite <- app_comm_cons. do 2 f_equal.
    rewrite (bool_decide_ext (k ∈ k' :: d.*1) (k ∈ d.*1)); [done|].
    rewrite elem_of_cons. intuition (subst; auto; congruence).
Qed.

Lemma dict_get_set {V} k (v : V) d law :
  dict_get law (dict_set k v d) = if bool_decide (k = law) then Ok v else dict_get law d.
Proof.
  induction d as [|[k' v'] d IH]; simpl.
  - done.
  - destruct (decide (k' = k)) as [->|Hne].
    + rewrite bool_decide_eq_true_2 by done. simpl. by case_bool_decide.
    + rewrite bool_decide_eq_false_2 by done. simpl. rewrite IH.
      repeat case_bool_decide; congruence.
Qed.

Lemma dict_get_skip {V} k (d1 d2 : dict V) :
  k ∉ d1.*1 -> dict_get k (d1 ++ d2) = dict_get k d2.
Proof.
  induction d1 as [|[k' v'] d1 IH]; [done|]. simpl. rewrite not_elem_of_cons.
  intros [Hne Hk]. rewrite bool_decide_eq_false_2 by done. by apply IH.
Qed.

Lemma first_seen_elem k l : forall seen,
  k ∈ first_seen seen l <-> k ∈ l /\ k ∉ seen.
Proof.
  induction l as [|x l IH]; intros seen; simpl.
  - rewrite elem_of_nil. intuition (subst; auto; congruence).
  - case_bool_decide as Hx.
    + rewrite IH, elem_of_cons. intuition (subst; auto; congruence).
    + rewrite !elem_of_cons, IH, not_elem_of_cons. 
      destruct (decide (k = x)) as [->|]; intuition (subst; auto; congruence).
Qed.

Lemma first_seen_snoc k l : forall seen,
  first_seen seen (l ++ [k])
  = first_seen seen l ++ (if bool_decide (k ∈ seen ++ l) then [] else [k]).
Proof.
  induction l as [|x l IH]; intros seen; simpl.
  - rewrite app_nil_r. by case_bool_decide.
  - case_bool_decide as Hx.
    + rewrite IH. f_equal.
      rewrite (bool_decide_ext (k ∈ seen ++ x :: l) (k ∈ seen ++ l)); [done|].
      rewrite !elem_of_app, elem_of_cons. intuition (subst; auto; congruence).
    + rewrite IH. simpl. f_equal. f_equal.
      rewrite (bool_decide_ext (k ∈ seen ++ x :: l) (k ∈ x :: seen ++ l)); [done|].
      rewrite !elem_of_app, !elem_of_cons, elem_of_app. intuition (subst; auto; congruence).
Qed.

Lemma last_text_snoc law rows k text :
  last_text law (rows ++ [(k, text)])
  = if bool_decide (k = law) then Some text else last_text law rows.
Proof.
  unfold last_text. rewrite List.filter_app. cbn [List.filter fst].
  case_bool_decide.
  - rewrite map_app. cbn [map snd]. apply last_snoc.
  - by rewrite app_nil_r.
Qed.

(** The loop over the rows, as a fold. *)
Lemma load_fold rows : forall hs,
  load rows hs
  = Ok (foldl (fun hs row => dict_set row.1 (value (grows [] (split NL row.2))) hs)
              hs rows).
Proof.
  induction rows as [|[subject text] rows IH]; intros hs; [done|].
  simpl. rewrite parse_text_grows. simpl. apply IH.
Qed.

(** After the rows read, the dictionary has the subjects, each at the
    place of its first row and with the tree of its last row. *)
Lemma load_last_row rows :
  exists hs, load rows [] = Ok hs
    /\ hs.*1 = first_seen [] rows.*1 /\ NoDup hs.*1
    /\ forall law, dict_get law hs
                   = match last_text law rows with
                     | Some text => parse_text text
                     | None => Raise KeyError
                     end.
Proof.
  rewrite load_fold. eexists. split; [done|].
  induction rows as [|[k text] rows (Hkeys & Hnd & Hget)] using rev_ind.
  - split; [done|]. split; [constructor | done].
  - rewrite foldl_snoc. cbn [fst snd].
    revert Hkeys Hnd Hget.
    match goal with |- context [foldl ?f [] rows] => generalize (foldl f [] rows) end.
    intros hs Hkeys Hnd Hget.
    assert (k ∈ hs.*1 <-> k ∈ [] ++ rows.*1) as Hk.
    { rewrite Hkeys, first_seen_elem. simpl. rewrite elem_of_nil. intuition (subst; auto; congruence). }
    split; [|split].
    + rewrite dict_set_keys, fmap_app. cbn [fmap list_fmap fst].
      rewrite first_seen_snoc, <- Hkeys. f_equal.
      by rewrite (bool_decide_ext _ _ Hk).
    + rewrite dict_set_keys. case_bool_decide; [by rewrite app_nil_r|].
      apply NoDup_app. split; [done|]. split; [|apply NoDup_singleton].
      by intros x Hx ->%list_elem_of_singleton.
    + intros law. rewrite dict_get_set, last_text_snoc.
      case_bool_decide; [by rewrite parse_text_grows | apply Hget].
Qed.

(** ** The records *)

Lemma foldl_doc_of law ds : forall docs,
  foldl (fun docs d => docs ++ [doc_of law d]) docs ds = docs ++ map (doc_of law) ds.
Proof.
  induction ds as [|d ds IH]; intros docs; simpl; [by rewrite app_nil_r|].
  by rewrite IH, <- app_assoc.
Qed.

Lemma foldl_element_documents law t : forall docs,
  foldl (element_documents law) docs t = docs ++ tree_documents law t.
Proof.
  unfold tree_documents, dieus.
  induction t as [|[p | c ds ct] t IH]; intros docs; simpl; [by rewrite app_nil_r | apply IH |].
  by rewrite IH, foldl_doc_of, map_app, app_assoc.
Qed.

Lemma law_documents_all hs2 : forall hs1 docs,
  NoDup (hs1 ++ hs2).*1 ->
  law_documents (hs1 ++ hs2) hs2.*1 docs
  = Ok (docs ++ flat_map (fun e => tree_documents e.1 e.2) hs2).
Proof.
  induction hs2 as [|[law t] hs2 IH]; intros hs1 docs Hnd; simpl; [by rewrite app_nil_r|].
  pose proof Hnd as Hnd'.
  rewrite fmap_app in Hnd'. apply NoDup_app in Hnd' as (_ & Hdis & _).
  rewrite dict_get_skip by (intros Hin; apply (Hdis law Hin); left).
  simpl. rewrite bool_decide_eq_true_2 by done. simpl.
  rewrite foldl_element_documents.
  rewrite (cons_middle (law, t) hs1 hs2), app_assoc in Hnd |- *.
  rewrite IH by done. by rewrite <- app_assoc.
Qed.

(** The records of the rows kept: a subject that several rows share is
    taken once, at the place of its first row and with the text of its
    last row; each subject gives the records of the articles of its
    tree, chapter by chapter, and nothing for its Preamble nodes. *)
Theorem documents_of_rows (data : list (pystr * pystr)) :
  let rows := List.filter (fun row => kept (fst row)) data in
  exists hs,
    hierarchical_structures data = Ok hs
    /\ hs.*1 = first_seen [] rows.*1
    /\ (forall law, dict_get law hs
                    = match last_text law rows with
                      | Some text => parse_text text
                      | None => Raise KeyError
                      end)
    /\ documents data = Ok (flat_map (fun e => tree_documents e.1 e.2) hs).
Proof.
  intros rows. unfold documents, hierarchical_structures. fold rows.
  destruct (load_last_row rows) as (hs & -> & Hkeys & Hnd & Hget).
  exists hs. repeat split; try done. simpl.
  apply (law_documents_all hs [] []). done.
Qed.

Lemma article_numbers_shape lines : Forall dieu_number (article_numbers lines).
Proof.
  unfold article_numbers. apply Forall_flat_map, Forall_forall. intros raw _.
  unfold classify.
  destruct (re_match CHUONG_PATTERN (strip raw)); [constructor|].
  destruct (re_match DIEU_PATTERN (strip raw)) as [m|] eqn:E.
  { repeat constructor. by apply dieu_group. }
  destruct (re_match KHOAN_PATTERN (strip raw)); [constructor|].
  destruct (re_match MUC_PATTERN (strip raw)); constructor.
Qed.

Lemma titles_of_labels law ds ns :
  map dieu_Dieu ds = map (app (py "Dieu ")) ns -> Forall dieu_number ns ->
  map doc_title (map (doc_of law) ds) = map (app (py "Điều ")) ns.
Proof.
  intros Heq Hns.
  transitivity (map (replace (py "Dieu") (py "Điều")) (map dieu_Dieu ds)).
  { rewrite !map_map. done. }
  rewrite Heq. clear Heq. induction Hns as [|n ns Hn _ IH]; [done|].
  cbn [map]. by rewrite article_title, IH.
Qed.

Lemma documents_one_law law text :
  documents [(law, text)]
  = Ok (if kept law then tree_documents law (value (grows [] (split NL text))) else []).
Proof.
  unfold documents, hierarchical_structures. cbn [List.filter fst].
  destruct (kept law); [|done].
  rewrite load_fold. cbn [foldl fst snd dict_set bind].
  pose proof (law_documents_all [(law, value (grows [] (split NL text)))] [] []) as H.
  cbn [app] in H. rewrite H by apply NoDup_singleton.
  cbn [flat_map fst snd app]. by rewrite app_nil_r.
Qed.

(** The records of one law are its article header lines, in the order of
    the lines: each is titled "Điều " and the number of its line, cites
    its title, a space and the subject of the law, and names the law. A
    law whose subject fails the test of the rows gives no record. *)
Theorem records_follow_article_lines (law text : pystr) :
  exists t, parse_text text = Ok t
    /\ documents [(law, text)] = Ok (if kept law then tree_documents law t else [])
    /\ map doc_title (tree_documents law t)
       = map (app (py "Điều ")) (article_numbers (split NL text))
    /\ Forall (fun c => doc_citation c = doc_title c ++ py " " ++ law /\ doc_law c = law)
              (tree_documents law t).
Proof.
  exists (value (grows [] (split NL text))). split; [apply parse_text_grows|].
  split; [apply documents_one_law|]. split.
  - apply titles_of_labels; [|apply article_numbers_shape].
    by rewrite dieu_labels_grows.
  - unfold tree_documents. apply Forall_forall. intros c Hc.
    apply list_elem_of_fmap in Hc as (d & -> & _). done.
Qed.

(** A text none of whose lines matches the article pattern gives no
    record, and no error. *)
Theorem no_article_no_record (law text : pystr) :
  Forall (fun raw => re_match DIEU_PATTERN (strip raw) = None) (split NL text) ->
  documents [(law, text)] = Ok [].
Proof.
  intros Hno. rewrite documents_one_law. destruct (kept law); [|done]. f_equal.
  unfold tree_documents.
  assert (article_numbers (split NL text) = []) as Hn.
  { unfold article_numbers. induction Hno as [|raw lines Hraw _ IH]; [done|].
    simpl. rewrite IH, app_nil_r. unfold classify. rewrite Hraw.
    destruct (re_match CHUONG_PATTERN (strip raw)); [done|].
    destruct (re_match KHOAN_PATTERN (strip raw)); [done|].
    by destruct (re_match MUC_PATTERN (strip raw)). }
  pose proof (dieu_labels_grows (split NL text) []) as Hl. rewrite Hn in Hl.
  simpl in Hl. apply map_eq_nil in Hl. by rewrite Hl.
Qed.

Lemma no_article_no_record_witness :
  kept (py "Luật Đất đai (mới nhất)") = true
  /\ documents [(py "Luật Đất đai (mới nhất)", py "Lời nói đầu\nChương I\n1. Quy định chung")]
     = Ok [].
Proof.
  split; [reflexivity|]. apply no_article_no_record.
  let l := eval vm_compute in (split NL (py "Lời nói đầu\nChương I\n1. Quy định chung")) in
  change (split NL (py "Lời nói đầu\nChương I\n1. Quy định chung")) with l.
  repeat (constructor; [vm_compute; reflexivity|]). constructor.
Defined.
